(** * pio_irq: interrupt demultiplexing for the PIO blocks of the RP2xxx

    A shallow embedding of [source/pio_irq.cpp] and the properties of its
    index arithmetic, handler registry, dispatch trampoline and wiring
    call.

    Conventions of the embedding:
    - [uint], [uint32_t] and [size_t] values are integers of [Z]; every
      operation that can leave the 32-bit range has its wrap-around written
      out with [wrap32];
    - [assert] is the develop-build check of the source: a failing
      assertion aborts the run ([AssertionFailed]);
    - an access to [handlers_] outside the array is undefined behaviour in
      C++ ([UndefinedBehaviour]);
    - the calls into the Pico SDK, the accesses to [handlers_] and the
      invocations of handler objects are recorded, in program order, in a
      trace. *)

From Stdlib Require Import ZArith Lia Bool.
From stdpp Require Import base list.

Local Open Scope Z_scope.

(** ** Machine integers *)

Definition wrap32 (x : Z) : Z := x mod 2 ^ 32.

Definition is_uint32 (x : Z) : Prop := 0 <= x < 2 ^ 32.

(** ** Results of a run *)

Inductive outcome (A : Type) : Type :=
| Normal (a : A)
| AssertionFailed
| UndefinedBehaviour.

Arguments Normal {A} a.
Arguments AssertionFailed {A}.
Arguments UndefinedBehaviour {A}.

(** ** Index arithmetic *)

(** The condition of the [if] in the loop of [sm_from_interrupt]:
    [irq_val & 1 << i], where [<<] binds tighter than [&]. *)
Definition bit_is_set (irq_val i : Z) : bool :=
  negb (Z.land irq_val (Z.shiftl 1 i) =? 0).

(** [for (i = 0; i < 4; i++) { if (irq_val & 1 << i) break; }], entered
    with counter [i] and [remaining = 4 - i] values of the counter still
    below 4; [remaining = 0] is the exit of the loop by its condition. The
    result is the value of [i] after the loop. *)
Fixpoint sm_from_interrupt_loop (remaining : nat) (irq_val i : Z) : Z :=
  match remaining with
  | O => i
  | S remaining' =>
      if bit_is_set irq_val i then i
      else sm_from_interrupt_loop remaining' irq_val (i + 1)
  end.

(** [uint sm_from_interrupt(const uint32_t irq_val, const uint32_t ir)] *)
Definition sm_from_interrupt (irq_val ir : Z) : outcome Z :=
  let i := sm_from_interrupt_loop 4 irq_val 0 in
  if negb (i =? 4) then Normal i else AssertionFailed.

(** [inline uint relative_interrupt(const uint32_t ir, const uint sm)] *)
Definition relative_interrupt (ir sm : Z) : Z :=
  let retval := Z.land ir 0x03 in
  let retval := wrap32 (retval + sm) in
  let retval := retval mod 4 in
  let retval := Z.lor retval (Z.land ir 0xfffffffc) in
  retval.

(** ** Words of the flag register *)

(** How many of the bits 0..3 of [w] are set. *)
Definition popcount4 (w : Z) : Z :=
  Z.b2z (Z.testbit w 0) + Z.b2z (Z.testbit w 1)
  + Z.b2z (Z.testbit w 2) + Z.b2z (Z.testbit w 3).

(** [b] is the position of the lowest set bit of [w]. *)
Definition lowest_set_bit_is (w b : Z) : Prop :=
  Z.testbit w b = true /\ forall j, 0 <= j < b -> Z.testbit w j = false.

(** The flag word right after state machine [sm] raised its flag for the
    logical interrupt number [ir], no other flag being up. By the REL
    convention of the hardware (the comment above [relative_interrupt] in
    the source; it is the flag whose source [register_interrupt] enables
    for [sm]) that is bit [relative_interrupt ir sm]. *)
Definition fired (ir sm : Z) : Z := Z.shiftl 1 (relative_interrupt ir sm).

(** ** Peripheral instances and the SDK's constants *)

(** [PIO] is the SDK's handle of a PIO block; the blocks are [pio0],
    [pio1] and, on a chip with three of them, [pio2]. *)
Inductive PIO : Type := pio0 | pio1 | pio2.

(** The SDK's macro [PIO_NUM]: the number of the block. *)
Definition PIO_NUM (pio : PIO) : Z :=
  match pio with pio0 => 0 | pio1 => 1 | pio2 => 2 end.

(** [size_t index_for(PIO pio, uint sm)] *)
Definition index_for (pio : PIO) (sm : Z) : Z :=
  wrap32 (PIO_NUM pio * 4 + sm).

(** [inline pio_interrupt_source interrupt_source(const pio_interrupt_source is,
    const uint32_t ir)]: arithmetic on the underlying value of the enum. *)
Definition interrupt_source (is_ ir : Z) : Z := wrap32 (is_ + ir).

(** [irq_handler_t]: a pointer to a function without parameters. The only
    functions the library installs are its own trampolines. *)
Inductive irq_handler_t : Type :=
| null_handler
| interrupt_handler_PIO0_ptr
| interrupt_handler_PIO1_ptr
| interrupt_handler_PIO2_ptr.

Module pio_irq.
Section pio_irq.

(** [template <std::invocable H, uint32_t interrupt_number> class pio_irq] *)
Variable H : Type.
Variable interrupt_number : Z.

(** Constants of the SDK's headers, fixed at build time. *)
Variable NUM_PIOS : Z.
Variable PIO0_IRQ_0 : Z.
Variable pis_interrupt0 : Z.
Variable PICO_SHARED_IRQ_HANDLER_DEFAULT_ORDER_PRIORITY : Z.

(** [H *]: [None] is [nullptr]. *)
Definition handler_ptr : Type := option H.
Definition nullptr : handler_ptr := None.

Definition is_nullptr (p : handler_ptr) : bool :=
  match p with None => true | Some _ => false end.

(** What a run does that can be seen from outside the class. *)
Inductive event : Type :=
| pio_set_irq0_source_enabled (pio : PIO) (source : Z) (enabled : bool)
| pio_set_irq1_source_enabled (pio : PIO) (source : Z) (enabled : bool)
| pio_interrupt_clear (pio : PIO) (ir : Z)
| irq_add_shared_handler (num : Z) (handler : irq_handler_t) (order_priority : Z)
| irq_set_enabled (num : Z) (enabled : bool)
| handlers_read (idx : Z)
| handlers_write (idx : Z) (p : handler_ptr)
| invoke (h : H).

(** The state a run works on: the static array [handlers_], the flag
    register [pio->irq] of every block (it keeps its value during one
    run), and the trace, oldest event first. *)
Record world : Type := World {
  handlers_ : list handler_ptr;
  irq : PIO -> Z;
  trace : list event
}.

(** [static std::array<H *, NUM_PIOS * 4> handlers_], zero-initialised. *)
Definition handlers_init : list handler_ptr :=
  replicate (Z.to_nat (NUM_PIOS * 4)) nullptr.

Definition well_sized (w : world) : Prop :=
  Z.of_nat (length (handlers_ w)) = NUM_PIOS * 4.

(** *** A state and error monad *)

Definition M (A : Type) : Type := world -> outcome A * world.

Definition ret {A} (a : A) : M A := fun w => (Normal a, w).

Definition bind {A B} (m : M A) (k : A -> M B) : M B :=
  fun w =>
    match m w with
    | (Normal a, w') => k a w'
    | (AssertionFailed, w') => (AssertionFailed, w')
    | (UndefinedBehaviour, w') => (UndefinedBehaviour, w')
    end.

Notation "x <- m ;; k" := (bind m (fun x => k))
  (at level 100, m at next level, right associativity).
Notation "m ;;; k" := (bind m (fun _ => k))
  (at level 100, right associativity).

Definition lift {A} (o : outcome A) : M A := fun w => (o, w).

Definition assert (b : bool) : M unit :=
  lift (if b then Normal tt else AssertionFailed).

Definition emit (e : event) : M unit :=
  fun w => (Normal tt,
            {| handlers_ := handlers_ w; irq := irq w; trace := trace w ++ [e] |}).

(** [pio->irq] *)
Definition read_irq (pio : PIO) : M Z := fun w => (Normal (irq w pio), w).

(** [handlers_[idx]] as an rvalue *)
Definition handlers_get (idx : Z) : M handler_ptr :=
  fun w =>
    match handlers_ w !! Z.to_nat idx with
    | Some p =>
        (Normal p,
         {| handlers_ := handlers_ w; irq := irq w;
            trace := trace w ++ [handlers_read idx] |})
    | None => (UndefinedBehaviour, w)
    end.

(** [handlers_[idx] = p] *)
Definition handlers_set (idx : Z) (p : handler_ptr) : M unit :=
  fun w =>
    match handlers_ w !! Z.to_nat idx with
    | Some _ =>
        (Normal tt,
         {| handlers_ := <[Z.to_nat idx := p]> (handlers_ w); irq := irq w;
            trace := trace w ++ [handlers_write idx p] |})
    | None => (UndefinedBehaviour, w)
    end.

(** *** The wrappers around the SDK *)

Definition _pio_set_irq0_source_enabled (pio : PIO) (source : Z) (enabled : bool) : M unit :=
  emit (pio_set_irq0_source_enabled pio source enabled).

Definition _pio_set_irq1_source_enabled (pio : PIO) (source : Z) (enabled : bool) : M unit :=
  emit (pio_set_irq1_source_enabled pio source enabled).

Definition _pio_interrupt_clear (pio : PIO) (ir : Z) : M unit :=
  emit (pio_interrupt_clear pio ir).

(** The call of the handler object through its pointer. *)
Definition call (h : H) : M unit := emit (invoke h).

(** *** The class *)

(** [static void register_interrupt(uint irq_channel, PIO pio, uint sm, bool enable)] *)
Definition register_interrupt (irq_channel : Z) (pio : PIO) (sm : Z) (enable : bool) : M unit :=
  assert (irq_channel <? 2) ;;;
  let irq_num := wrap32 (PIO0_IRQ_0 + 2 * PIO_NUM pio + irq_channel) in
  let handler := null_handler in
  (if irq_channel =? 0 then
     _pio_set_irq0_source_enabled pio
       (interrupt_source pis_interrupt0 (relative_interrupt interrupt_number sm)) true
   else
     _pio_set_irq1_source_enabled pio
       (interrupt_source pis_interrupt0 (relative_interrupt interrupt_number sm)) true) ;;;
  let handler :=
    match PIO_NUM pio with
    | 0 => interrupt_handler_PIO0_ptr
    | 1 => interrupt_handler_PIO1_ptr
    | 2 => if 2 <? NUM_PIOS then interrupt_handler_PIO2_ptr else handler
    | _ => handler
    end in
  emit (irq_add_shared_handler irq_num handler
          PICO_SHARED_IRQ_HANDLER_DEFAULT_ORDER_PRIORITY) ;;;
  if enable then emit (irq_set_enabled irq_num true) else ret tt.

(** [static bool register_handler(PIO pio, uint sm, H *handler, bool set)] *)
Definition register_handler (pio : PIO) (sm : Z) (handler : handler_ptr) (set : bool) : M bool :=
  let idx := index_for pio sm in
  old <- handlers_get idx ;;
  handlers_set idx (if set then handler else nullptr) ;;;
  ret (if set then is_nullptr old else true).

(** [static void interrupt_handler(PIO pio)] *)
Definition interrupt_handler (pio : PIO) : M unit :=
  v <- read_irq pio ;;
  if v =? 0 then ret tt
  else
    v <- read_irq pio ;;
    assert (negb (v =? 0)) ;;;
    v <- read_irq pio ;;
    sm <- lift (sm_from_interrupt v interrupt_number) ;;
    let ir := relative_interrupt interrupt_number sm in
    _pio_interrupt_clear pio ir ;;;
    handler <- handlers_get (index_for pio sm) ;;
    match handler with
    | Some h => call h
    | None => ret tt
    end.

Definition interrupt_handler_PIO0 : M unit := interrupt_handler pio0.
Definition interrupt_handler_PIO1 : M unit := interrupt_handler pio1.
Definition interrupt_handler_PIO2 : M unit := interrupt_handler pio2.

(** The handlers a trace invoked, in order. *)
Fixpoint invocations (t : list event) : list H :=
  match t with
  | [] => []
  | invoke h :: t' => h :: invocations t'
  | _ :: t' => invocations t'
  end.

(** The flags a trace cleared, in order. *)
Fixpoint cleared (t : list event) : list (PIO * Z) :=
  match t with
  | [] => []
  | pio_interrupt_clear pio ir :: t' => (pio, ir) :: cleared t'
  | _ :: t' => cleared t'
  end.

(** [pio] is one of the [NUM_PIOS] blocks of the chip. *)
Definition valid_pio (pio : PIO) : Prop := PIO_NUM pio < NUM_PIOS.

(** The events of a dispatch that resolved the state machine [sm] and
    read [p] from its slot. *)
Definition dispatch_events (pio : PIO) (sm : Z) (p : handler_ptr) : list event :=
  [pio_interrupt_clear pio (relative_interrupt interrupt_number sm);
   handlers_read (index_for pio sm)]
  ++ match p with Some h => [invoke h] | None => [] end.

(** The hardware setting the flag register of [pio] to [v]. *)
Definition with_irq (w : world) (pio : PIO) (v : Z) : world :=
  {| handlers_ := handlers_ w;
     irq := fun p => if PIO_NUM p =? PIO_NUM pio then v else irq w p;
     trace := trace w |}.

(** The world whose slot [idx] of [handlers_] holds [p]. *)
Definition with_slot (w : world) (idx : Z) (p : handler_ptr) : world :=
  {| handlers_ := <[Z.to_nat idx := p]> (handlers_ w);
     irq := irq w;
     trace := trace w |}.

(** The call the vector makes through an installed [irq_handler_t]: each
    pointer the class hands out is the address of one of its trampolines;
    a call through a null pointer is undefined. *)
Definition call_irq_handler (f : irq_handler_t) : M unit :=
  match f with
  | null_handler => lift UndefinedBehaviour
  | interrupt_handler_PIO0_ptr => interrupt_handler_PIO0
  | interrupt_handler_PIO1_ptr => interrupt_handler_PIO1
  | interrupt_handler_PIO2_ptr => interrupt_handler_PIO2
  end.

(** The four ways a run of the trampoline on [w] can go: nothing raised;
    a non-zero word without a bit among the bits 0..3; a resolved state
    machine whose slot is read; a resolved state machine whose slot lies
    outside [handlers_]. *)
Inductive dispatch_case (w : world) (pio : PIO) : Prop :=
| dispatch_nothing :
    irq w pio = 0 ->
    interrupt_handler pio w = (Normal tt, w) ->
    dispatch_case w pio
| dispatch_no_state_machine :
    irq w pio <> 0 -> popcount4 (irq w pio) = 0 ->
    interrupt_handler pio w = (AssertionFailed, w) ->
    dispatch_case w pio
| dispatch_done (sm : Z) (p : handler_ptr) :
    0 <= sm < 4 ->
    sm_from_interrupt (irq w pio) interrupt_number = Normal sm ->
    handlers_ w !! Z.to_nat (index_for pio sm) = Some p ->
    interrupt_handler pio w =
      (Normal tt,
       {| handlers_ := handlers_ w; irq := irq w;
          trace := trace w ++ dispatch_events pio sm p |}) ->
    dispatch_case w pio
| dispatch_out_of_range (sm : Z) :
    0 <= sm < 4 ->
    sm_from_interrupt (irq w pio) interrupt_number = Normal sm ->
    handlers_ w !! Z.to_nat (index_for pio sm) = None ->
    interrupt_handler pio w =
      (UndefinedBehaviour,
       {| handlers_ := handlers_ w; irq := irq w;
          trace :=
            trace w ++
            [pio_interrupt_clear pio (relative_interrupt interrupt_number sm)] |}) ->
    dispatch_case w pio.

(** An event that switches something off: a call of the SDK with
    [enabled = false]. *)
Definition is_disable (e : event) : bool :=
  match e with
  | pio_set_irq0_source_enabled _ _ enabled => negb enabled
  | pio_set_irq1_source_enabled _ _ enabled => negb enabled
  | irq_set_enabled _ enabled => negb enabled
  | _ => false
  end.

(** An event that touches [handlers_]. *)
Definition is_table_access (e : event) : bool :=
  match e with
  | handlers_read _ => true
  | handlers_write _ _ => true
  | _ => false
  end.

End pio_irq.
End pio_irq.

(** ** A concrete build

    The values of the SDK's constants on the RP2040 (two PIO blocks), with
    handler objects told apart by a number. *)
Module rp2040.

Definition NUM_PIOS : Z := 2.
Definition PIO0_IRQ_0 : Z := 7.
Definition pis_interrupt0 : Z := 8.
Definition PICO_SHARED_IRQ_HANDLER_DEFAULT_ORDER_PRIORITY : Z := 0x80.

(** The world at start-up, with the flag register of every block
    holding [v]. *)
Definition start (v : Z) : pio_irq.world nat :=
  {| pio_irq.handlers_ := pio_irq.handlers_init nat NUM_PIOS;
     pio_irq.irq := fun _ => v;
     pio_irq.trace := [] |}.

Definition register_interrupt (interrupt_number : Z) :=
  pio_irq.register_interrupt nat interrupt_number NUM_PIOS PIO0_IRQ_0
    pis_interrupt0 PICO_SHARED_IRQ_HANDLER_DEFAULT_ORDER_PRIORITY.

End rp2040.

(** * Properties *)

(** ** Index arithmetic *)

Lemma land_pow2 (w i : Z) :
  0 <= i -> Z.land w (2 ^ i) = if Z.testbit w i then 2 ^ i else 0.
Proof.
  intros Hi. apply Z.bits_inj'. intros k Hk.
  rewrite Z.land_spec, Z.pow2_bits_eqb by lia.
  destruct (Z.eqb_spec i k) as [->|Hne].
  - destruct (Z.testbit w k) eqn:E; simpl.
    + rewrite Z.pow2_bits_true; lia.
    + now rewrite Z.bits_0.
  - rewrite andb_false_r.
    destruct (Z.testbit w i).
    + rewrite Z.pow2_bits_false; lia.
    + now rewrite Z.bits_0.
Qed.

Lemma bit_is_set_testbit (w i : Z) :
  0 <= i -> bit_is_set w i = Z.testbit w i.
Proof.
  intros Hi. unfold bit_is_set.
  rewrite Z.shiftl_1_l, land_pow2 by lia.
  destruct (Z.testbit w i); simpl; [|reflexivity].
  destruct (Z.eqb_spec (2 ^ i) 0) as [E|]; [|reflexivity].
  pose proof (Z.pow_pos_nonneg 2 i); lia.
Qed.

(** The loop, unrolled: a cascade over the bits 0, 1, 2, 3. *)
Lemma sm_from_interrupt_unrolled (irq_val ir : Z) :
  sm_from_interrupt irq_val ir =
    if Z.testbit irq_val 0 then Normal 0
    else if Z.testbit irq_val 1 then Normal 1
    else if Z.testbit irq_val 2 then Normal 2
    else if Z.testbit irq_val 3 then Normal 3
    else AssertionFailed.
Proof.
  unfold sm_from_interrupt. cbn [sm_from_interrupt_loop].
  rewrite !bit_is_set_testbit by lia.
  change (0 + 1) with 1. change (1 + 1) with 2.
  change (2 + 1) with 3. change (3 + 1) with 4.
  destruct (Z.testbit irq_val 0); [reflexivity|].
  destruct (Z.testbit irq_val 1); [reflexivity|].
  destruct (Z.testbit irq_val 2); [reflexivity|].
  destruct (Z.testbit irq_val 3); reflexivity.
Qed.

Lemma small_cases (b : Z) : 0 <= b < 4 -> b = 0 \/ b = 1 \/ b = 2 \/ b = 3.
Proof. lia. Qed.

Ltac small_case b :=
  let E := fresh in
  match goal with
  | Hb : 0 <= b < 4 |- _ =>
      destruct (small_cases b Hb) as [E|[E|[E|E]]]; subst b
  end.

Lemma lowest_set_bit_unique (w a b : Z) :
  lowest_set_bit_is w a -> lowest_set_bit_is w b -> 0 <= a -> 0 <= b -> a = b.
Proof.
  intros [Ha La] [Hb Lb] ? ?.
  destruct (Z.lt_trichotomy a b) as [Hlt|[->|Hgt]]; [|reflexivity|].
  - rewrite Lb in Ha by lia. discriminate.
  - rewrite La in Hb by lia. discriminate.
Qed.

(** What [sm_from_interrupt] returns, for every word. *)
Lemma sm_from_interrupt_normal (irq_val ir b : Z) :
  sm_from_interrupt irq_val ir = Normal b <->
  0 <= b < 4 /\ lowest_set_bit_is irq_val b.
Proof.
  rewrite sm_from_interrupt_unrolled. unfold lowest_set_bit_is. split.
  - destruct (Z.testbit irq_val 0) eqn:E0; [intros [= <-]|
    destruct (Z.testbit irq_val 1) eqn:E1; [intros [= <-]|
    destruct (Z.testbit irq_val 2) eqn:E2; [intros [= <-]|
    destruct (Z.testbit irq_val 3) eqn:E3; [intros [= <-]|discriminate]]]];
    (split; [lia|split; [assumption|]]); intros j Hj;
    assert (Hc : j = 0 \/ j = 1 \/ j = 2) by lia;
    destruct Hc as [-> | [-> | ->]]; assumption || lia.
  - intros [Hb [Hset Hlow]]. small_case b; rewrite Hset.
    + reflexivity.
    + rewrite (Hlow 0) by lia. reflexivity.
    + rewrite (Hlow 0), (Hlow 1) by lia. reflexivity.
    + rewrite (Hlow 0), (Hlow 1), (Hlow 2) by lia. reflexivity.
Qed.

Lemma sm_from_interrupt_failed (irq_val ir : Z) :
  sm_from_interrupt irq_val ir = AssertionFailed <-> popcount4 irq_val = 0.
Proof.
  rewrite sm_from_interrupt_unrolled. unfold popcount4.
  destruct (Z.testbit irq_val 0), (Z.testbit irq_val 1),
    (Z.testbit irq_val 2), (Z.testbit irq_val 3); simpl;
    split; intros; try discriminate; try lia; reflexivity.
Qed.

Lemma sm_from_interrupt_never_undefined (irq_val ir : Z) :
  sm_from_interrupt irq_val ir <> UndefinedBehaviour.
Proof.
  rewrite sm_from_interrupt_unrolled.
  destruct (Z.testbit irq_val 0), (Z.testbit irq_val 1),
    (Z.testbit irq_val 2), (Z.testbit irq_val 3); discriminate.
Qed.

Lemma popcount4_pos_lowest (w : Z) :
  popcount4 w <> 0 -> exists b, 0 <= b < 4 /\ lowest_set_bit_is w b.
Proof.
  intros Hp.
  destruct (sm_from_interrupt w 0) as [b| |] eqn:E.
  - exists b. now apply (sm_from_interrupt_normal w 0).
  - apply sm_from_interrupt_failed in E. contradiction.
  - now apply sm_from_interrupt_never_undefined in E.
Qed.

Lemma land_3_mod (x : Z) : Z.land x 3 = x mod 4.
Proof. change 3 with (Z.ones 2). now rewrite Z.land_ones by lia. Qed.

Lemma wrap32_mod_4 (x : Z) : wrap32 x mod 4 = x mod 4.
Proof.
  unfold wrap32. apply Z.mod_mod_divide.
  exists (2 ^ 30). reflexivity.
Qed.

Lemma testbit_high_mask (k : Z) :
  Z.testbit 0xfffffffc k = (2 <=? k) && (k <? 32).
Proof.
  change 0xfffffffc with (Z.shiftl (Z.ones 30) 2).
  destruct (Z.leb_spec 2 k) as [Hk|Hk]; simpl.
  - rewrite Z.shiftl_spec by lia.
    destruct (Z.ltb_spec k 32).
    + apply Z.ones_spec_low. lia.
    + apply Z.ones_spec_high. lia.
  - destruct (Z.neg_nonneg_cases k) as [Hn|Hn].
    + now apply Z.testbit_neg_r.
    + rewrite Z.shiftl_spec by lia. apply Z.testbit_neg_r. lia.
Qed.

Lemma testbit_uint32_high (x k : Z) :
  is_uint32 x -> 32 <= k -> Z.testbit x k = false.
Proof.
  intros [Hlo Hhi] Hk.
  destruct (Z.eq_dec x 0) as [->|Hx]; [apply Z.bits_0|].
  apply Z.bits_above_log2; [lia|].
  apply Z.log2_lt_pow2; [lia|].
  apply Z.lt_le_trans with (2 ^ 32); [assumption|].
  apply Z.pow_le_mono_r; lia.
Qed.

Lemma testbit_mod_4_high (x k : Z) : 2 <= k -> Z.testbit (x mod 4) k = false.
Proof.
  intros Hk. change 4 with (2 ^ 2). apply Z.mod_pow2_bits_high. lia.
Qed.

(** The low two bits of the result, for every 32-bit [ir] and [sm]. *)
Lemma relative_interrupt_low (ir sm : Z) :
  Z.land (relative_interrupt ir sm) 3 = (ir + sm) mod 4.
Proof.
  unfold relative_interrupt.
  rewrite Z.land_lor_distr_l, <- Z.land_assoc.
  change (Z.land 0xfffffffc 3) with 0. rewrite Z.land_0_r, Z.lor_0_r.
  rewrite !land_3_mod, Z.mod_mod, wrap32_mod_4 by lia.
  apply Z.add_mod_idemp_l. lia.
Qed.

(** The bits above position 1 of the result, for every 32-bit [ir]. *)
Lemma relative_interrupt_high (ir sm k : Z) :
  is_uint32 ir -> 2 <= k ->
  Z.testbit (relative_interrupt ir sm) k = Z.testbit ir k.
Proof.
  intros Hir Hk. unfold relative_interrupt.
  rewrite Z.lor_spec, Z.land_spec, testbit_mod_4_high, testbit_high_mask by lia.
  simpl. destruct (Z.leb_spec 2 k); [|lia]. simpl.
  destruct (Z.ltb_spec k 32).
  - apply andb_true_r.
  - rewrite andb_false_r. symmetry. now apply testbit_uint32_high.
Qed.

(** With a logical interrupt number of two bits the result is the flag
    index itself. *)
Lemma relative_interrupt_small (ir sm : Z) :
  0 <= ir < 4 -> relative_interrupt ir sm = (ir + sm) mod 4.
Proof.
  intros Hir. rewrite <- relative_interrupt_low.
  apply Z.bits_inj'. intros k Hk.
  rewrite Z.land_spec.
  destruct (Z.ltb_spec k 2) as [Hlt|Hge].
  - assert (Hc : k = 0 \/ k = 1) by lia.
    destruct Hc as [-> | ->]; simpl; now rewrite andb_true_r.
  - rewrite relative_interrupt_high by (unfold is_uint32; lia).
    replace (Z.testbit 3 k) with false.
    + rewrite andb_false_r.
      destruct (Z.eq_dec ir 0) as [->|Hx]; [apply Z.bits_0|].
      apply Z.bits_above_log2; [lia|].
      apply Z.lt_le_trans with 2; [|lia].
      apply Z.log2_lt_pow2; lia.
    + symmetry. change 3 with (Z.ones 2). apply Z.ones_spec_high. lia.
Qed.

Lemma relative_interrupt_range (ir sm : Z) :
  0 <= ir < 4 -> 0 <= relative_interrupt ir sm < 4.
Proof.
  intros Hir. rewrite relative_interrupt_small by assumption.
  apply Z.mod_pos_bound. lia.
Qed.

(** C1. For every [base] in 0..3 and every [sm] in 0..3, the low two bits
    of [relative_interrupt base sm] are [(base + sm) mod 4], and every bit
    above position 1 of the result is the bit of [base] at that position. *)
Theorem relative_interrupt_spec (base sm : Z) :
  0 <= base < 4 -> 0 <= sm < 4 ->
  Z.land (relative_interrupt base sm) 3 = (base + sm) mod 4 /\
  (forall k, 2 <= k ->
     Z.testbit (relative_interrupt base sm) k = Z.testbit base k).
Proof.
  intros Hbase Hsm. split.
  - apply relative_interrupt_low.
  - intros k Hk. apply relative_interrupt_high; [|assumption].
    unfold is_uint32. lia.
Qed.

Lemma relative_interrupt_spec_witness :
  (0 <= 3 < 4 /\ 0 <= 2 < 4) /\
  Z.land (relative_interrupt 3 2) 3 = (3 + 2) mod 4 /\
  (forall k, 2 <= k -> Z.testbit (relative_interrupt 3 2) k = Z.testbit 3 k).
Proof. split; [lia|]. apply (relative_interrupt_spec 3 2); lia. Defined.

(** C3. For a word with exactly one bit set among the bits 0..3, at
    position [b], [sm_from_interrupt] returns [b], the position of the
    lowest set bit; the words 0b0001, 0b0010, 0b0100 and 0b1000 are the
    instances [2 ^ b]. *)
Theorem sm_from_interrupt_single_bit (irq_val ir b : Z) :
  0 <= b < 4 -> Z.testbit irq_val b = true -> popcount4 irq_val = 1 ->
  sm_from_interrupt irq_val ir = Normal b /\ lowest_set_bit_is irq_val b.
Proof.
  intros Hb Hset Hone.
  assert (Hlow : lowest_set_bit_is irq_val b).
  { split; [assumption|]. intros j Hj. unfold popcount4 in Hone.
    assert (Hc : j = 0 \/ j = 1 \/ j = 2) by lia.
    destruct (Z.testbit irq_val 0) eqn:E0, (Z.testbit irq_val 1) eqn:E1,
      (Z.testbit irq_val 2) eqn:E2, (Z.testbit irq_val 3) eqn:E3;
      simpl in Hone; try lia;
      small_case b; try congruence;
      destruct Hc as [-> | [-> | ->]]; assumption || lia. }
  split; [|assumption]. apply sm_from_interrupt_normal. now split.
Qed.

Lemma sm_from_interrupt_single_bit_witness :
  (0 <= 2 < 4 /\ Z.testbit 4 2 = true /\ popcount4 4 = 1) /\
  sm_from_interrupt 4 0 = Normal 2 /\ lowest_set_bit_is 4 2.
Proof.
  split; [repeat split; lia || reflexivity|].
  apply (sm_from_interrupt_single_bit 4 0 2); [lia|reflexivity|reflexivity].
Defined.

(** The four words of the claim, evaluated. *)
Example single_bit_words_resolve (ir : Z) :
  sm_from_interrupt 1 ir = Normal 0 /\
  sm_from_interrupt 2 ir = Normal 1 /\
  sm_from_interrupt 4 ir = Normal 2 /\
  sm_from_interrupt 8 ir = Normal 3.
Proof. repeat split; reflexivity. Qed.

(** C4, as stated, fails: the word 0b0011 has two bits set among the bits
    0..3 and [sm_from_interrupt] returns normally. *)
Lemma sm_from_interrupt_multi_bit_returns :
  ~ (forall irq_val ir, is_uint32 irq_val -> is_uint32 ir ->
       1 < popcount4 irq_val ->
       sm_from_interrupt irq_val ir = AssertionFailed).
Proof.
  intros Hclaim.
  specialize (Hclaim 3 0).
  assert (E : sm_from_interrupt 3 0 = AssertionFailed).
  { apply Hclaim; [unfold is_uint32; lia | unfold is_uint32; lia | reflexivity]. }
  discriminate E.
Qed.

(** C4, amended. For a word with more than one bit set among the bits 0..3
    [sm_from_interrupt] returns normally the position of the lowest set
    bit; the assertion fails exactly when none of the bits 0..3 is set. *)
Theorem sm_from_interrupt_assertion (irq_val ir : Z) :
  (1 < popcount4 irq_val ->
   exists b, 0 <= b < 4 /\ sm_from_interrupt irq_val ir = Normal b /\
             lowest_set_bit_is irq_val b) /\
  (sm_from_interrupt irq_val ir = AssertionFailed <-> popcount4 irq_val = 0).
Proof.
  split; [|apply sm_from_interrupt_failed].
  intros Hmany.
  destruct (popcount4_pos_lowest irq_val) as [b [Hb Hlow]]; [lia|].
  exists b. split; [assumption|]. split; [|assumption].
  apply sm_from_interrupt_normal. now split.
Qed.

Lemma sm_from_interrupt_assertion_witness :
  1 < popcount4 10 /\
  exists b, 0 <= b < 4 /\ sm_from_interrupt 10 0 = Normal b /\
            lowest_set_bit_is 10 b.
Proof.
  split; [reflexivity|].
  apply (proj1 (sm_from_interrupt_assertion 10 0)). reflexivity.
Defined.

(** C10. The state machine resolved from a word with at least one bit set
    among the bits 0..3 does not depend on the logical interrupt number. *)
Theorem sm_from_interrupt_ignores_ir (irq_val ir1 ir2 : Z) :
  popcount4 irq_val <> 0 ->
  sm_from_interrupt irq_val ir1 = sm_from_interrupt irq_val ir2 /\
  exists b, 0 <= b < 4 /\ sm_from_interrupt irq_val ir1 = Normal b.
Proof.
  intros Hsome. split; [reflexivity|].
  destruct (popcount4_pos_lowest irq_val Hsome) as [b [Hb Hlow]].
  exists b. split; [assumption|]. apply sm_from_interrupt_normal. now split.
Qed.

Lemma sm_from_interrupt_ignores_ir_witness :
  popcount4 6 <> 0 /\
  sm_from_interrupt 6 0 = sm_from_interrupt 6 3 /\
  exists b, 0 <= b < 4 /\ sm_from_interrupt 6 0 = Normal b.
Proof.
  split; [vm_compute; discriminate|].
  apply (sm_from_interrupt_ignores_ir 6 0 3). vm_compute. discriminate.
Defined.

(** ** Handler registry, dispatch trampoline and wiring *)

Section pio_irq_properties.

Variable H : Type.
Variable interrupt_number : Z.
Variable NUM_PIOS : Z.
Variable PIO0_IRQ_0 : Z.
Variable pis_interrupt0 : Z.
Variable PICO_SHARED_IRQ_HANDLER_DEFAULT_ORDER_PRIORITY : Z.

Abbreviation world := (pio_irq.world H).
Abbreviation event := (pio_irq.event H).
Abbreviation handler_ptr := (pio_irq.handler_ptr H).
Abbreviation handlers_ := (pio_irq.handlers_ H).
Abbreviation irq := (pio_irq.irq H).
Abbreviation trace := (pio_irq.trace H).
Abbreviation well_sized := (pio_irq.well_sized H NUM_PIOS).
Abbreviation register_handler := (pio_irq.register_handler H).
Abbreviation interrupt_handler := (pio_irq.interrupt_handler H interrupt_number).
Abbreviation register_interrupt :=
  (pio_irq.register_interrupt H interrupt_number NUM_PIOS PIO0_IRQ_0
     pis_interrupt0 PICO_SHARED_IRQ_HANDLER_DEFAULT_ORDER_PRIORITY).
Abbreviation invocations := (pio_irq.invocations H).
Abbreviation cleared := (pio_irq.cleared H).
Abbreviation with_irq := (pio_irq.with_irq H).
Abbreviation with_slot := (pio_irq.with_slot H).
Abbreviation pio_interrupt_clear := (pio_irq.pio_interrupt_clear H).
Abbreviation handlers_read := (pio_irq.handlers_read H).
Abbreviation handlers_write := (pio_irq.handlers_write H).
Abbreviation invoke := (pio_irq.invoke H).
Abbreviation nullptr := (pio_irq.nullptr H).
Abbreviation valid_pio := (pio_irq.valid_pio NUM_PIOS).
Abbreviation dispatch_events := (pio_irq.dispatch_events H interrupt_number).
Abbreviation is_nullptr := (pio_irq.is_nullptr H).

Lemma index_for_small (pio : PIO) (sm : Z) :
  0 <= sm < 4 -> index_for pio sm = PIO_NUM pio * 4 + sm.
Proof.
  intros Hsm. unfold index_for, wrap32.
  apply Z.mod_small. destruct pio; simpl; lia.
Qed.

Lemma index_for_inj (pio : PIO) (s b : Z) :
  0 <= s < 4 -> 0 <= b < 4 -> index_for pio s = index_for pio b -> s = b.
Proof. intros Hs Hb. rewrite !index_for_small by assumption. lia. Qed.

(** Every slot of a block of the chip lies inside [handlers_]. *)
Lemma slot_in_range (w : world) (pio : PIO) (sm : Z) :
  well_sized w -> valid_pio pio -> 0 <= sm < 4 ->
  exists p, handlers_ w !! Z.to_nat (index_for pio sm) = Some p.
Proof.
  intros Hw Hpio Hsm. apply lookup_lt_is_Some_2.
  unfold pio_irq.well_sized in Hw. unfold pio_irq.valid_pio in Hpio.
  rewrite index_for_small by assumption.
  assert (0 <= PIO_NUM pio) by (destruct pio; simpl; lia). lia.
Qed.

Lemma invocations_app (t1 t2 : list event) :
  invocations (t1 ++ t2) = invocations t1 ++ invocations t2.
Proof.
  induction t1 as [|e t1 IH]; [reflexivity|].
  destruct e; simpl; rewrite IH; reflexivity.
Qed.

Lemma cleared_app (t1 t2 : list event) :
  cleared (t1 ++ t2) = cleared t1 ++ cleared t2.
Proof.
  induction t1 as [|e t1 IH]; [reflexivity|].
  destruct e; simpl; rewrite IH; reflexivity.
Qed.

(** A run of the trampoline on a word that resolves to [sm]. *)
Lemma interrupt_handler_resolved (w : world) (pio : PIO) (sm : Z) (p : handler_ptr) :
  sm_from_interrupt (irq w pio) interrupt_number = Normal sm ->
  handlers_ w !! Z.to_nat (index_for pio sm) = Some p ->
  interrupt_handler pio w =
    (Normal tt,
     {| pio_irq.handlers_ := handlers_ w; pio_irq.irq := irq w;
        pio_irq.trace := trace w ++ dispatch_events pio sm p |}).
Proof.
  intros Hsm Hslot.
  assert (Hnz : (irq w pio =? 0) = false).
  { destruct (Z.eqb_spec (irq w pio) 0) as [E|]; [|reflexivity].
    rewrite E in Hsm. discriminate Hsm. }
  unfold pio_irq.interrupt_handler, pio_irq.bind, pio_irq.read_irq,
    pio_irq.assert, pio_irq.lift, pio_irq._pio_interrupt_clear,
    pio_irq.handlers_get, pio_irq.call, pio_irq.emit, pio_irq.ret.
  cbv beta. rewrite !Hnz. cbn [negb]. cbv beta iota.
  rewrite Hsm. cbn [pio_irq.handlers_ pio_irq.irq pio_irq.trace].
  rewrite Hslot. unfold pio_irq.dispatch_events.
  destruct p; cbn [pio_irq.handlers_ pio_irq.irq pio_irq.trace];
    rewrite <- ?app_assoc; reflexivity.
Qed.

(** A run of the trampoline on a non-zero word without a bit among the
    bits 0..3. *)
Lemma interrupt_handler_unresolved (w : world) (pio : PIO) :
  irq w pio <> 0 -> popcount4 (irq w pio) = 0 ->
  interrupt_handler pio w = (AssertionFailed, w).
Proof.
  intros Hnz Hnone.
  apply (sm_from_interrupt_failed _ interrupt_number) in Hnone.
  apply Z.eqb_neq in Hnz.
  unfold pio_irq.interrupt_handler, pio_irq.bind, pio_irq.read_irq,
    pio_irq.assert, pio_irq.lift.
  cbv beta. rewrite !Hnz. cbn [negb]. cbv beta iota.
  rewrite Hnone. reflexivity.
Qed.

(** A run of the trampoline whose slot lies outside [handlers_]: the
    flag is cleared before the access. *)
Lemma interrupt_handler_out_of_range (w : world) (pio : PIO) (sm : Z) :
  sm_from_interrupt (irq w pio) interrupt_number = Normal sm ->
  handlers_ w !! Z.to_nat (index_for pio sm) = None ->
  interrupt_handler pio w =
    (UndefinedBehaviour,
     {| pio_irq.handlers_ := handlers_ w; pio_irq.irq := irq w;
        pio_irq.trace :=
          trace w ++
          [pio_interrupt_clear pio (relative_interrupt interrupt_number sm)] |}).
Proof.
  intros Hsm Hslot.
  assert (Hnz : (irq w pio =? 0) = false).
  { destruct (Z.eqb_spec (irq w pio) 0) as [E|]; [|reflexivity].
    rewrite E in Hsm. discriminate Hsm. }
  unfold pio_irq.interrupt_handler, pio_irq.bind, pio_irq.read_irq,
    pio_irq.assert, pio_irq.lift, pio_irq._pio_interrupt_clear,
    pio_irq.handlers_get, pio_irq.call, pio_irq.emit, pio_irq.ret.
  cbv beta. rewrite !Hnz. cbn [negb]. cbv beta iota.
  rewrite Hsm. cbn [pio_irq.handlers_ pio_irq.irq pio_irq.trace].
  rewrite Hslot. reflexivity.
Qed.

(** Whatever [handlers_] holds, a dispatch that resolves [sm] clears the
    flag [relative_interrupt interrupt_number sm] of [pio], once, and no
    other flag. *)
Lemma interrupt_handler_clears_once (w : world) (pio : PIO) (sm : Z) :
  sm_from_interrupt (irq w pio) interrupt_number = Normal sm ->
  cleared (trace (snd (interrupt_handler pio w))) =
    cleared (trace w) ++ [(pio, relative_interrupt interrupt_number sm)].
Proof.
  intros Hsm.
  destruct (handlers_ w !! Z.to_nat (index_for pio sm)) as [p|] eqn:Hslot.
  - rewrite (interrupt_handler_resolved w pio sm p Hsm Hslot).
    cbn [snd pio_irq.trace]. rewrite cleared_app.
    destruct p; reflexivity.
  - rewrite (interrupt_handler_out_of_range w pio sm Hsm Hslot).
    cbn [snd pio_irq.trace]. now rewrite cleared_app.
Qed.

(** C7. When [pio->irq] is all-zero the trampoline returns at once: the
    world is unchanged, so no state machine was resolved, no flag was
    cleared, [handlers_] was not read and no handler was invoked. *)
Theorem interrupt_handler_all_zero (w : world) (pio : PIO) :
  irq w pio = 0 -> interrupt_handler pio w = (Normal tt, w).
Proof.
  intros Hz.
  unfold pio_irq.interrupt_handler, pio_irq.bind, pio_irq.read_irq.
  cbv beta. rewrite Hz. reflexivity.
Qed.

(** C2, amended. For every flag word with at least one bit set among the
    bits 0..3 the trampoline resolves a state machine [sm], clears the
    flag [relative_interrupt interrupt_number sm] of the block and no
    other flag, then reads the slot of [sm], and invokes the handler
    found there, if any; with [nullptr] in the slot nothing is invoked.
    For a logical interrupt number in 0..3 the cleared flag is
    [(interrupt_number + sm) mod 4]. *)
Theorem interrupt_handler_clears_resolved_flag (w : world) (pio : PIO) :
  well_sized w -> valid_pio pio -> popcount4 (irq w pio) <> 0 ->
  exists sm p,
    0 <= sm < 4 /\
    sm_from_interrupt (irq w pio) interrupt_number = Normal sm /\
    handlers_ w !! Z.to_nat (index_for pio sm) = Some p /\
    interrupt_handler pio w =
      (Normal tt,
       {| pio_irq.handlers_ := handlers_ w; pio_irq.irq := irq w;
          pio_irq.trace :=
            trace w ++
            [pio_interrupt_clear pio (relative_interrupt interrupt_number sm);
             handlers_read (index_for pio sm)] ++
            match p with Some h => [invoke h] | None => [] end |}) /\
    cleared (trace (snd (interrupt_handler pio w))) =
      cleared (trace w) ++ [(pio, relative_interrupt interrupt_number sm)] /\
    (p = nullptr ->
     invocations (trace (snd (interrupt_handler pio w))) = invocations (trace w)) /\
    (0 <= interrupt_number < 4 ->
     relative_interrupt interrupt_number sm = (interrupt_number + sm) mod 4).
Proof.
  intros Hw Hpio Hsome.
  destruct (popcount4_pos_lowest _ Hsome) as [sm [Hrange Hlow]].
  assert (Hsm : sm_from_interrupt (irq w pio) interrupt_number = Normal sm).
  { apply sm_from_interrupt_normal. now split. }
  destruct (slot_in_range w pio sm Hw Hpio Hrange) as [p Hslot].
  pose proof (interrupt_handler_resolved w pio sm p Hsm Hslot) as Hrun.
  exists sm, p. repeat split; try assumption; try lia.
  - now apply interrupt_handler_clears_once.
  - intros ->. rewrite Hrun. cbn [snd pio_irq.trace].
    rewrite invocations_app. cbn. apply app_nil_r.
  - apply relative_interrupt_small.
Qed.

(** C9. For a logical interrupt number [n] in 0..3 and the flag word with
    the single bit [b] set, the trampoline takes [b] itself as the state
    machine: it clears the flag [(n + b) mod 4] and reads the slot
    [PIO_NUM pio * 4 + b]. For [n <> 0] that is not the slot of the state
    machine [s] whose flag is [b], that is, with [(n + s) mod 4 = b]. *)
Theorem interrupt_handler_uses_raw_bit (w : world) (pio : PIO) (b : Z) :
  well_sized w -> valid_pio pio -> 0 <= interrupt_number < 4 ->
  0 <= b < 4 -> irq w pio = 2 ^ b ->
  exists p,
    handlers_ w !! Z.to_nat (PIO_NUM pio * 4 + b) = Some p /\
    interrupt_handler pio w =
      (Normal tt,
       {| pio_irq.handlers_ := handlers_ w; pio_irq.irq := irq w;
          pio_irq.trace :=
            trace w ++
            [pio_interrupt_clear pio ((interrupt_number + b) mod 4);
             handlers_read (PIO_NUM pio * 4 + b)] ++
            match p with Some h => [invoke h] | None => [] end |}) /\
    (forall s, 0 <= s < 4 -> interrupt_number <> 0 ->
       (interrupt_number + s) mod 4 = b ->
       index_for pio s <> PIO_NUM pio * 4 + b).
Proof.
  intros Hw Hpio Hn Hb Hword.
  assert (Hsm : sm_from_interrupt (irq w pio) interrupt_number = Normal b).
  { rewrite Hword. small_case b; reflexivity. }
  destruct (slot_in_range w pio b Hw Hpio Hb) as [p Hslot].
  pose proof (interrupt_handler_resolved w pio b p Hsm Hslot) as Hrun.
  unfold pio_irq.dispatch_events in Hrun.
  rewrite relative_interrupt_small in Hrun by assumption.
  rewrite index_for_small in Hslot, Hrun by assumption.
  exists p. repeat split; try assumption.
  intros s Hs Hnz Hflag. rewrite index_for_small by assumption.
  intros Heq. assert (s = b) by lia. subst s.
  assert (Hc : interrupt_number = 1 \/ interrupt_number = 2 \/ interrupt_number = 3) by lia.
  small_case b; destruct Hc as [Hc | [Hc | Hc]]; rewrite Hc in Hflag;
    discriminate Hflag.
Qed.

(** A run of [register_handler] on a slot inside [handlers_]. *)
Lemma register_handler_run (w : world) (pio : PIO) (sm : Z)
    (handler old : handler_ptr) (set : bool) :
  handlers_ w !! Z.to_nat (index_for pio sm) = Some old ->
  register_handler pio sm handler set w =
    (Normal (if set then is_nullptr old else true),
     {| pio_irq.handlers_ :=
          <[Z.to_nat (index_for pio sm) := if set then handler else nullptr]>
            (handlers_ w);
        pio_irq.irq := irq w;
        pio_irq.trace :=
          trace w ++
          [handlers_read (index_for pio sm);
           handlers_write (index_for pio sm) (if set then handler else nullptr)] |}).
Proof.
  intros Hslot.
  unfold pio_irq.register_handler, pio_irq.bind, pio_irq.handlers_get,
    pio_irq.handlers_set, pio_irq.ret.
  cbv beta zeta. rewrite Hslot.
  cbn [pio_irq.handlers_ pio_irq.irq pio_irq.trace]. rewrite Hslot.
  cbn [pio_irq.handlers_ pio_irq.irq pio_irq.trace].
  now rewrite <- app_assoc.
Qed.

Lemma with_slot_lookup (w : world) (idx : Z) (old p : handler_ptr) :
  handlers_ w !! Z.to_nat idx = Some old ->
  handlers_ (with_slot w idx p) !! Z.to_nat idx = Some p.
Proof.
  intros Hslot. cbn [pio_irq.with_slot pio_irq.handlers_].
  apply list_lookup_insert_eq. now apply lookup_lt_Some in Hslot.
Qed.

(** C5. For every slot [(pio, sm)], [register_handler pio sm handler true]
    stores [handler] in the slot and returns [true] exactly when the slot
    held [nullptr]; a handler found in the slot is overwritten, and the
    outcome is the same whichever handler that was. *)
Theorem register_handler_bind (w : world) (pio : PIO) (sm : Z) (handler : handler_ptr) :
  well_sized w -> valid_pio pio -> 0 <= sm < 4 ->
  exists old r w',
    handlers_ w !! Z.to_nat (index_for pio sm) = Some old /\
    register_handler pio sm handler true w = (Normal r, w') /\
    (r = true <-> old = nullptr) /\
    handlers_ w' = <[Z.to_nat (index_for pio sm) := handler]> (handlers_ w) /\
    handlers_ w' !! Z.to_nat (index_for pio sm) = Some handler /\
    (forall h1 h2 : H,
       register_handler pio sm handler true (with_slot w (index_for pio sm) (Some h1)) =
       register_handler pio sm handler true (with_slot w (index_for pio sm) (Some h2))).
Proof.
  intros Hw Hpio Hsm.
  destruct (slot_in_range w pio sm Hw Hpio Hsm) as [old Hslot].
  exists old. eexists. eexists.
  split; [exact Hslot|].
  split; [apply (register_handler_run w pio sm handler old true Hslot)|].
  cbn [pio_irq.handlers_].
  split; [unfold pio_irq.nullptr; destruct old; simpl; split; intros; congruence|].
  split; [reflexivity|].
  split.
  - apply list_lookup_insert_eq. now apply lookup_lt_Some in Hslot.
  - intros h1 h2.
    rewrite (register_handler_run _ pio sm handler (Some h1) true)
      by (eapply with_slot_lookup; eassumption).
    rewrite (register_handler_run _ pio sm handler (Some h2) true)
      by (eapply with_slot_lookup; eassumption).
    cbn [pio_irq.with_slot pio_irq.handlers_ pio_irq.irq pio_irq.trace].
    now rewrite !list_insert_insert_eq.
Qed.

Lemma sm_from_interrupt_shiftl (ir b : Z) :
  0 <= b < 4 -> sm_from_interrupt (Z.shiftl 1 b) ir = Normal b.
Proof. intros Hb. small_case b; reflexivity. Qed.

Lemma relative_interrupt_moves (n s : Z) :
  0 <= n < 4 -> 0 <= s < 4 -> (relative_interrupt n s = s <-> n = 0).
Proof.
  intros Hn Hs. rewrite relative_interrupt_small by assumption.
  small_case n; small_case s; split; intros Heq;
    solve [reflexivity | discriminate Heq].
Qed.

(** C6. Bind [A] at (block 0, state machine 1), then bind [B] at the same
    slot without unbinding: the second call returns [false] and the slot
    holds [B]. State machine 1 then raises its flag, bit
    [relative_interrupt interrupt_number 1]. The trampoline takes that bit
    position as the state machine and invokes what its slot holds, [p]:
    for [interrupt_number = 0] that is [B]; for [interrupt_number] in 1..3
    it is the slot of another state machine, untouched by the two binds,
    so [B] is not invoked on account of its binding, and the flag the
    trampoline clears is not the one that was raised. *)
Theorem rebind_then_fire (w : world) (A B : H) :
  well_sized w -> valid_pio pio0 -> 0 <= interrupt_number < 4 ->
  exists r1 w1 w2 w3 p,
    register_handler pio0 1 (Some A) true w = (Normal r1, w1) /\
    register_handler pio0 1 (Some B) true w1 = (Normal false, w2) /\
    handlers_ w2 !! Z.to_nat (index_for pio0 1) = Some (Some B) /\
    interrupt_handler pio0 (with_irq w2 pio0 (fired interrupt_number 1)) =
      (Normal tt, w3) /\
    invocations (trace w3) =
      invocations (trace w2) ++ match p with Some h => [h] | None => [] end /\
    cleared (trace w3) =
      cleared (trace w2) ++
      [(pio0, relative_interrupt interrupt_number
                (relative_interrupt interrupt_number 1))] /\
    (interrupt_number = 0 -> p = Some B) /\
    (interrupt_number <> 0 ->
       relative_interrupt interrupt_number 1 <> 1 /\
       handlers_ w !! Z.to_nat (index_for pio0 (relative_interrupt interrupt_number 1))
         = Some p /\
       relative_interrupt interrupt_number (relative_interrupt interrupt_number 1)
         <> relative_interrupt interrupt_number 1).
Proof.
  intros Hw Hpio Hn.
  pose proof (relative_interrupt_range interrupt_number 1 Hn) as Hs.
  set (s := relative_interrupt interrupt_number 1) in *.
  destruct (slot_in_range w pio0 1 Hw Hpio ltac:(lia)) as [old Hslot].
  destruct (slot_in_range w pio0 s Hw Hpio Hs) as [q Hq].
  pose proof (lookup_lt_Some _ _ _ Hslot) as Hlen.
  pose proof (register_handler_run w pio0 1 (Some A) old true Hslot) as Hrun1.
  set (w1 := snd (register_handler pio0 1 (Some A) true w)).
  assert (Htab1 : handlers_ w1 = <[Z.to_nat (index_for pio0 1) := Some A]> (handlers_ w)).
  { subst w1. now rewrite Hrun1. }
  assert (Hslot1 : handlers_ w1 !! Z.to_nat (index_for pio0 1) = Some (Some A)).
  { rewrite Htab1. now apply list_lookup_insert_eq. }
  pose proof (register_handler_run w1 pio0 1 (Some B) (Some A) true Hslot1) as Hrun2.
  set (w2 := snd (register_handler pio0 1 (Some B) true w1)).
  assert (Htab2 : handlers_ w2 = <[Z.to_nat (index_for pio0 1) := Some B]> (handlers_ w)).
  { subst w2. rewrite Hrun2. cbn [snd pio_irq.handlers_].
    rewrite Htab1. apply list_insert_insert_eq. }
  assert (Hslot2 : handlers_ w2 !! Z.to_nat (index_for pio0 1) = Some (Some B)).
  { rewrite Htab2. now apply list_lookup_insert_eq. }
  assert (Hp : exists p, handlers_ w2 !! Z.to_nat (index_for pio0 s) = Some p).
  { apply lookup_lt_is_Some_2. rewrite Htab2, length_insert.
    now apply lookup_lt_Some in Hq. }
  destruct Hp as [p Hp].
  assert (Hres : sm_from_interrupt
                   (irq (with_irq w2 pio0 (fired interrupt_number 1)) pio0)
                   interrupt_number = Normal s).
  { cbn [pio_irq.with_irq pio_irq.irq]. rewrite Z.eqb_refl.
    now apply sm_from_interrupt_shiftl. }
  pose proof (interrupt_handler_resolved _ pio0 s p Hres Hp) as Hrun3.
  exists (is_nullptr old), w1, w2. eexists. exists p.
  split; [subst w1; now rewrite Hrun1|].
  split; [subst w2; now rewrite Hrun2|].
  split; [exact Hslot2|].
  split; [exact Hrun3|].
  cbn [pio_irq.trace pio_irq.with_irq]. unfold pio_irq.dispatch_events.
  rewrite invocations_app, cleared_app.
  split; [destruct p; reflexivity|].
  split; [destruct p; reflexivity|].
  pose proof (relative_interrupt_moves interrupt_number 1 Hn ltac:(lia)) as Hone.
  pose proof (relative_interrupt_moves interrupt_number s Hn Hs) as Htwo.
  fold s in Hone. split.
  - intros Hzero. apply Hone in Hzero. rewrite Hzero in Hp.
    pose proof (eq_trans (eq_sym Hp) Hslot2) as Heq. now injection Heq.
  - intros Hnz.
    assert (Hs1 : s <> 1) by tauto.
    assert (Hclr : relative_interrupt interrupt_number s <> s) by tauto.
    split; [exact Hs1|]. split; [|exact Hclr].
    rewrite Htab2 in Hp. rewrite list_lookup_insert_ne in Hp; [exact Hp|].
    rewrite !index_for_small by lia. simpl PIO_NUM. lia.
Qed.

(** C8. [register_interrupt] called with a line other than 0 or 1 fails
    its assertion with the world unchanged: no call into the SDK was
    made, so no register was written. *)
Theorem register_interrupt_bad_line (w : world) (irq_channel : Z) (pio : PIO)
    (sm : Z) (enable : bool) :
  is_uint32 irq_channel -> irq_channel <> 0 -> irq_channel <> 1 ->
  register_interrupt irq_channel pio sm enable w = (AssertionFailed, w).
Proof.
  intros [Hlo Hhi] H0 H1.
  unfold pio_irq.register_interrupt, pio_irq.bind, pio_irq.assert, pio_irq.lift.
  destruct (Z.ltb_spec irq_channel 2); [lia|reflexivity].
Qed.

(** A call with line 0 or 1 passes the check and reaches the SDK: the
    source of the state machine's flag is enabled on that line, the
    trampoline of the block is installed and, on request, the vector is
    enabled. *)
Lemma register_interrupt_good_line (w : world) (irq_channel : Z) (pio : PIO)
    (sm : Z) (enable : bool) :
  irq_channel = 0 \/ irq_channel = 1 ->
  exists handler,
    register_interrupt irq_channel pio sm enable w =
      (Normal tt,
       {| pio_irq.handlers_ := handlers_ w; pio_irq.irq := irq w;
          pio_irq.trace :=
            trace w ++
            [(if irq_channel =? 0
              then pio_irq.pio_set_irq0_source_enabled H
              else pio_irq.pio_set_irq1_source_enabled H)
               pio
               (interrupt_source pis_interrupt0
                  (relative_interrupt interrupt_number sm))
               true;
             pio_irq.irq_add_shared_handler H
               (wrap32 (PIO0_IRQ_0 + 2 * PIO_NUM pio + irq_channel)) handler
               PICO_SHARED_IRQ_HANDLER_DEFAULT_ORDER_PRIORITY] ++
            (if enable
             then [pio_irq.irq_set_enabled H
                     (wrap32 (PIO0_IRQ_0 + 2 * PIO_NUM pio + irq_channel)) true]
             else []) |}).
Proof.
  intros [-> | ->]; destruct enable; eexists;
    cbv [pio_irq.register_interrupt pio_irq.bind pio_irq.assert pio_irq.lift
         pio_irq.emit pio_irq.ret pio_irq._pio_set_irq0_source_enabled
         pio_irq._pio_set_irq1_source_enabled
         pio_irq.handlers_ pio_irq.irq pio_irq.trace
         Z.ltb Z.eqb Z.compare Pos.compare Pos.compare_cont];
    rewrite <- ?app_assoc; reflexivity.
Qed.

End pio_irq_properties.

(** ** The properties on the concrete build *)

Lemma start_well_sized (v : Z) :
  pio_irq.well_sized nat rp2040.NUM_PIOS (rp2040.start v).
Proof. reflexivity. Qed.

Lemma rp2040_valid_pio0 : pio_irq.valid_pio rp2040.NUM_PIOS pio0.
Proof. reflexivity. Qed.

Lemma rp2040_valid_pio1 : pio_irq.valid_pio rp2040.NUM_PIOS pio1.
Proof. reflexivity. Qed.

(** The scenario of logical interrupt number 0: state machine 2 of block 0
    raises flag 2; the trampoline clears flag 2 and invokes the handler of
    slot 2. *)
Example dispatch_scenario :
  relative_interrupt 0 2 = 2 /\
  pio_irq.interrupt_handler nat 0 pio0
    (pio_irq.with_slot nat (rp2040.start 4) 2 (Some 7%nat)) =
    (Normal tt,
     {| pio_irq.handlers_ :=
          [None; None; Some 7%nat; None; None; None; None; None];
        pio_irq.irq := fun _ => 4;
        pio_irq.trace :=
          [pio_irq.pio_interrupt_clear nat pio0 2;
           pio_irq.handlers_read nat 2;
           pio_irq.invoke nat 7%nat] |}).
Proof. split; reflexivity. Qed.

(** With logical interrupt number 1, state machine 0 raises flag
    [relative_interrupt 1 0 = 1]; the trampoline takes the flag position as
    the state machine, reads slot 1 and clears flag 2. *)
Example dispatch_relative_offset :
  relative_interrupt 1 0 = 1 /\
  pio_irq.interrupt_handler nat 1 pio0
    (pio_irq.with_slot nat (rp2040.start (2 ^ 1)) (index_for pio0 0) (Some 7%nat)) =
    (Normal tt,
     {| pio_irq.handlers_ :=
          [Some 7%nat; None; None; None; None; None; None; None];
        pio_irq.irq := fun _ => 2;
        pio_irq.trace :=
          [pio_irq.pio_interrupt_clear nat pio0 2;
           pio_irq.handlers_read nat 1] |}).
Proof. split; reflexivity. Qed.

Lemma interrupt_handler_all_zero_witness :
  pio_irq.irq nat (rp2040.start 0) pio0 = 0 /\
  pio_irq.interrupt_handler nat 0 pio0 (rp2040.start 0) =
    (Normal tt, rp2040.start 0).
Proof.
  split; [reflexivity|].
  apply (interrupt_handler_all_zero nat 0 (rp2040.start 0) pio0). reflexivity.
Defined.

(** C2, as stated, fails: the flag word 0x10 is not zero, yet the state
    machine resolution fails its assertion and no flag is cleared. *)
Lemma interrupt_handler_high_flag_clears_nothing :
  ~ (forall (w : pio_irq.world nat) (pio : PIO),
       pio_irq.well_sized nat rp2040.NUM_PIOS w ->
       pio_irq.valid_pio rp2040.NUM_PIOS pio ->
       is_uint32 (pio_irq.irq nat w pio) ->
       pio_irq.irq nat w pio <> 0 ->
       exists ir,
         pio_irq.cleared nat
           (pio_irq.trace nat (snd (pio_irq.interrupt_handler nat 0 pio w))) =
         pio_irq.cleared nat (pio_irq.trace nat w) ++ [(pio, ir)]).
Proof.
  intros Hclaim.
  destruct (Hclaim (rp2040.start 0x10) pio0) as [ir Hir].
  - reflexivity.
  - reflexivity.
  - unfold is_uint32. simpl. lia.
  - discriminate.
  - discriminate Hir.
Qed.

Lemma interrupt_handler_clears_resolved_flag_witness :
  (pio_irq.well_sized nat rp2040.NUM_PIOS (rp2040.start 4) /\
   pio_irq.valid_pio rp2040.NUM_PIOS pio0 /\
   popcount4 (pio_irq.irq nat (rp2040.start 4) pio0) <> 0) /\
  exists sm p,
    0 <= sm < 4 /\
    sm_from_interrupt (pio_irq.irq nat (rp2040.start 4) pio0) 0 = Normal sm /\
    pio_irq.handlers_ nat (rp2040.start 4) !! Z.to_nat (index_for pio0 sm) = Some p /\
    pio_irq.interrupt_handler nat 0 pio0 (rp2040.start 4) =
      (Normal tt,
       {| pio_irq.handlers_ := pio_irq.handlers_ nat (rp2040.start 4);
          pio_irq.irq := pio_irq.irq nat (rp2040.start 4);
          pio_irq.trace :=
            pio_irq.trace nat (rp2040.start 4) ++
            [pio_irq.pio_interrupt_clear nat pio0 (relative_interrupt 0 sm);
             pio_irq.handlers_read nat (index_for pio0 sm)] ++
            match p with Some h => [pio_irq.invoke nat h] | None => [] end |}) /\
    pio_irq.cleared nat
      (pio_irq.trace nat (snd (pio_irq.interrupt_handler nat 0 pio0 (rp2040.start 4)))) =
      pio_irq.cleared nat (pio_irq.trace nat (rp2040.start 4))
      ++ [(pio0, relative_interrupt 0 sm)] /\
    (p = pio_irq.nullptr nat ->
     pio_irq.invocations nat
       (pio_irq.trace nat (snd (pio_irq.interrupt_handler nat 0 pio0 (rp2040.start 4)))) =
     pio_irq.invocations nat (pio_irq.trace nat (rp2040.start 4))) /\
    (0 <= 0 < 4 -> relative_interrupt 0 sm = (0 + sm) mod 4).
Proof.
  assert (Hsome : popcount4 (pio_irq.irq nat (rp2040.start 4) pio0) <> 0)
    by (vm_compute; discriminate).
  split; [split; [apply start_well_sized|split; [apply rp2040_valid_pio0|exact Hsome]]|].
  exact (interrupt_handler_clears_resolved_flag nat 0 rp2040.NUM_PIOS
           (rp2040.start 4) pio0 (start_well_sized 4) rp2040_valid_pio0 Hsome).
Defined.

Lemma interrupt_handler_uses_raw_bit_witness :
  (pio_irq.well_sized nat rp2040.NUM_PIOS (rp2040.start 4) /\
   pio_irq.valid_pio rp2040.NUM_PIOS pio1 /\
   0 <= 1 < 4 /\ 0 <= 2 < 4 /\
   pio_irq.irq nat (rp2040.start 4) pio1 = 2 ^ 2) /\
  exists p,
    pio_irq.handlers_ nat (rp2040.start 4) !! Z.to_nat (PIO_NUM pio1 * 4 + 2) = Some p /\
    pio_irq.interrupt_handler nat 1 pio1 (rp2040.start 4) =
      (Normal tt,
       {| pio_irq.handlers_ := pio_irq.handlers_ nat (rp2040.start 4);
          pio_irq.irq := pio_irq.irq nat (rp2040.start 4);
          pio_irq.trace :=
            pio_irq.trace nat (rp2040.start 4) ++
            [pio_irq.pio_interrupt_clear nat pio1 ((1 + 2) mod 4);
             pio_irq.handlers_read nat (PIO_NUM pio1 * 4 + 2)] ++
            match p with Some h => [pio_irq.invoke nat h] | None => [] end |}) /\
    (forall s, 0 <= s < 4 -> 1 <> 0 -> (1 + s) mod 4 = 2 ->
       index_for pio1 s <> PIO_NUM pio1 * 4 + 2).
Proof.
  split; [repeat split; lia || reflexivity|].
  apply (interrupt_handler_uses_raw_bit nat 1 rp2040.NUM_PIOS (rp2040.start 4) pio1 2);
    [apply start_well_sized|apply rp2040_valid_pio1|lia|lia|reflexivity].
Defined.

Lemma register_handler_bind_witness :
  (pio_irq.well_sized nat rp2040.NUM_PIOS (rp2040.start 0) /\
   pio_irq.valid_pio rp2040.NUM_PIOS pio1 /\ 0 <= 3 < 4) /\
  exists old r w',
    pio_irq.handlers_ nat (rp2040.start 0) !! Z.to_nat (index_for pio1 3) = Some old /\
    pio_irq.register_handler nat pio1 3 (Some 5%nat) true (rp2040.start 0) = (Normal r, w') /\
    (r = true <-> old = pio_irq.nullptr nat) /\
    pio_irq.handlers_ nat w' =
      <[Z.to_nat (index_for pio1 3) := Some 5%nat]> (pio_irq.handlers_ nat (rp2040.start 0)) /\
    pio_irq.handlers_ nat w' !! Z.to_nat (index_for pio1 3) = Some (Some 5%nat) /\
    (forall h1 h2 : nat,
       pio_irq.register_handler nat pio1 3 (Some 5%nat) true
         (pio_irq.with_slot nat (rp2040.start 0) (index_for pio1 3) (Some h1)) =
       pio_irq.register_handler nat pio1 3 (Some 5%nat) true
         (pio_irq.with_slot nat (rp2040.start 0) (index_for pio1 3) (Some h2))).
Proof.
  split; [repeat split; lia || reflexivity|].
  apply (register_handler_bind nat rp2040.NUM_PIOS (rp2040.start 0) pio1 3 (Some 5%nat));
    [apply start_well_sized|apply rp2040_valid_pio1|lia].
Defined.

Lemma rebind_then_fire_witness :
  (pio_irq.well_sized nat rp2040.NUM_PIOS (rp2040.start 0) /\
   pio_irq.valid_pio rp2040.NUM_PIOS pio0 /\ 0 <= 1 < 4) /\
  exists r1 w1 w2 w3 p,
    pio_irq.register_handler nat pio0 1 (Some 10%nat) true (rp2040.start 0) =
      (Normal r1, w1) /\
    pio_irq.register_handler nat pio0 1 (Some 20%nat) true w1 = (Normal false, w2) /\
    pio_irq.handlers_ nat w2 !! Z.to_nat (index_for pio0 1) = Some (Some 20%nat) /\
    pio_irq.interrupt_handler nat 1 pio0 (pio_irq.with_irq nat w2 pio0 (fired 1 1)) =
      (Normal tt, w3) /\
    pio_irq.invocations nat (pio_irq.trace nat w3) =
      pio_irq.invocations nat (pio_irq.trace nat w2)
      ++ match p with Some h => [h] | None => [] end /\
    pio_irq.cleared nat (pio_irq.trace nat w3) =
      pio_irq.cleared nat (pio_irq.trace nat w2)
      ++ [(pio0, relative_interrupt 1 (relative_interrupt 1 1))] /\
    (1 = 0 -> p = Some 20%nat) /\
    (1 <> 0 ->
       relative_interrupt 1 1 <> 1 /\
       pio_irq.handlers_ nat (rp2040.start 0)
         !! Z.to_nat (index_for pio0 (relative_interrupt 1 1)) = Some p /\
       relative_interrupt 1 (relative_interrupt 1 1) <> relative_interrupt 1 1).
Proof.
  split; [repeat split; lia || reflexivity|].
  apply (rebind_then_fire nat 1 rp2040.NUM_PIOS (rp2040.start 0) 10%nat 20%nat);
    [reflexivity|reflexivity|lia].
Defined.

(** The run of C6 with logical interrupt number 1, evaluated: state machine
    1 raises flag 2 (the word 0b0100); the trampoline reads slot 2, invokes
    nothing and clears flag 3. *)
Example rebind_then_fire_offset_1 :
  fired 1 1 = 4 /\
  pio_irq.interrupt_handler nat 1 pio0
    (pio_irq.with_irq nat
       (snd (pio_irq.register_handler nat pio0 1 (Some 20%nat) true
               (snd (pio_irq.register_handler nat pio0 1 (Some 10%nat) true
                       (rp2040.start 0)))))
       pio0 (fired 1 1)) =
    (Normal tt,
     {| pio_irq.handlers_ :=
          [None; Some 20%nat; None; None; None; None; None; None];
        pio_irq.irq := fun p => if PIO_NUM p =? PIO_NUM pio0 then 4 else 0;
        pio_irq.trace :=
          [pio_irq.handlers_read nat 1;
           pio_irq.handlers_write nat 1 (Some 10%nat);
           pio_irq.handlers_read nat 1;
           pio_irq.handlers_write nat 1 (Some 20%nat);
           pio_irq.pio_interrupt_clear nat pio0 3;
           pio_irq.handlers_read nat 2] |}).
Proof. split; reflexivity. Qed.

Lemma register_interrupt_bad_line_witness :
  (is_uint32 2 /\ 2 <> 0 /\ 2 <> 1) /\
  rp2040.register_interrupt 0 2 pio0 0 true (rp2040.start 0) =
    (AssertionFailed, rp2040.start 0).
Proof.
  split; [unfold is_uint32; lia|].
  apply (register_interrupt_bad_line nat 0 rp2040.NUM_PIOS rp2040.PIO0_IRQ_0
           rp2040.pis_interrupt0 rp2040.PICO_SHARED_IRQ_HANDLER_DEFAULT_ORDER_PRIORITY
           (rp2040.start 0) 2 pio0 0 true); unfold is_uint32; lia.
Defined.

(** * Further properties *)

(** ** Index arithmetic *)

(** X1. The flags 4 and above of the register have no influence on the
    resolution: the result is that for the low four bits alone. *)
Theorem sm_from_interrupt_low_nibble (irq_val ir : Z) :
  sm_from_interrupt (Z.land irq_val 0xF) ir = sm_from_interrupt irq_val ir.
Proof.
  rewrite !sm_from_interrupt_unrolled, !Z.land_spec.
  change (Z.testbit 15 0) with true. change (Z.testbit 15 1) with true.
  change (Z.testbit 15 2) with true. change (Z.testbit 15 3) with true.
  now rewrite !andb_true_r.
Qed.

(** X2. For every 32-bit descriptor [ir] and every [sm] the result is a
    32-bit value whose low two bits are [(ir + sm) mod 4] and whose other
    bits are those of [ir]: the selector bits above the flag index pass
    through. *)
Theorem relative_interrupt_uint32 (ir sm : Z) :
  is_uint32 ir ->
  is_uint32 (relative_interrupt ir sm) /\
  Z.land (relative_interrupt ir sm) 3 = (ir + sm) mod 4 /\
  Z.shiftr (relative_interrupt ir sm) 2 = Z.shiftr ir 2.
Proof.
  intros Hir. split; [|split].
  - assert (Hmod : relative_interrupt ir sm mod 2 ^ 32 = relative_interrupt ir sm).
    { apply Z.bits_inj'. intros k Hk.
      destruct (Z.ltb_spec k 32).
      - apply Z.mod_pow2_bits_low. lia.
      - rewrite Z.mod_pow2_bits_high by lia.
        rewrite relative_interrupt_high by (assumption || lia).
        symmetry. now apply testbit_uint32_high. }
    unfold is_uint32. rewrite <- Hmod. apply Z.mod_pos_bound. lia.
  - apply relative_interrupt_low.
  - apply Z.bits_inj'. intros k Hk.
    rewrite !Z.shiftr_spec by assumption.
    apply relative_interrupt_high; [assumption|lia].
Qed.

Lemma relative_interrupt_uint32_witness :
  is_uint32 0x17 /\
  is_uint32 (relative_interrupt 0x17 2) /\
  Z.land (relative_interrupt 0x17 2) 3 = (0x17 + 2) mod 4 /\
  Z.shiftr (relative_interrupt 0x17 2) 2 = Z.shiftr 0x17 2.
Proof.
  assert (Hir : is_uint32 0x17) by (unfold is_uint32; lia).
  split; [exact Hir|]. exact (relative_interrupt_uint32 0x17 2 Hir).
Defined.

(** X3. For a logical interrupt number [n] in 0..3 the flag of a state
    machine determines the state machine: [sm] is the flag minus [n],
    modulo 4, so two state machines never share a flag. *)
Theorem relative_interrupt_inverse (n sm : Z) :
  0 <= n < 4 -> 0 <= sm < 4 ->
  (relative_interrupt n sm - n) mod 4 = sm /\
  (forall sm', 0 <= sm' < 4 ->
     relative_interrupt n sm' = relative_interrupt n sm -> sm' = sm).
Proof.
  intros Hn Hsm.
  assert (Hinv : forall s, 0 <= s < 4 -> (relative_interrupt n s - n) mod 4 = s).
  { intros s Hs. rewrite relative_interrupt_small by assumption.
    small_case n; small_case s; reflexivity. }
  split; [now apply Hinv|].
  intros sm' Hsm' Heq.
  rewrite <- (Hinv sm' Hsm'), <- (Hinv sm Hsm). now rewrite Heq.
Qed.

Lemma relative_interrupt_inverse_witness :
  (0 <= 3 < 4 /\ 0 <= 2 < 4) /\
  (relative_interrupt 3 2 - 3) mod 4 = 2 /\
  (forall sm', 0 <= sm' < 4 ->
     relative_interrupt 3 sm' = relative_interrupt 3 2 -> sm' = 2).
Proof.
  split; [lia|]. apply (relative_interrupt_inverse 3 2); lia.
Defined.

(** X4. [index_for] flattens (block, state machine) without collisions:
    for a state machine in 0..3 the index divided by 4 is the number of the
    block and the remainder is the state machine, and for a block of the
    chip the index lies inside the array of [NUM_PIOS * 4] slots. *)
Theorem index_for_flattens (NUM_PIOS : Z) (pio : PIO) (sm : Z) :
  pio_irq.valid_pio NUM_PIOS pio -> 0 <= sm < 4 ->
  0 <= index_for pio sm < NUM_PIOS * 4 /\
  index_for pio sm / 4 = PIO_NUM pio /\
  index_for pio sm mod 4 = sm.
Proof.
  unfold pio_irq.valid_pio. intros Hpio Hsm.
  assert (Hidx : index_for pio sm = PIO_NUM pio * 4 + sm).
  { unfold index_for, wrap32. apply Z.mod_small. destruct pio; simpl; lia. }
  rewrite Hidx.
  assert (0 <= PIO_NUM pio) by (destruct pio; simpl; lia).
  split; [lia|]. split.
  - rewrite Z.div_add_l by lia. rewrite Z.div_small by lia. lia.
  - rewrite Z.add_comm, Z.mod_add by lia. apply Z.mod_small. lia.
Qed.

Lemma index_for_flattens_witness :
  (pio_irq.valid_pio rp2040.NUM_PIOS pio1 /\ 0 <= 3 < 4) /\
  0 <= index_for pio1 3 < rp2040.NUM_PIOS * 4 /\
  index_for pio1 3 / 4 = PIO_NUM pio1 /\
  index_for pio1 3 mod 4 = 3.
Proof.
  split; [split; [reflexivity|lia]|].
  apply (index_for_flattens rp2040.NUM_PIOS pio1 3); [reflexivity|lia].
Defined.

(** ** Registry, trampoline and wiring *)

Section pio_irq_further.

Variable H : Type.
Variable interrupt_number : Z.
Variable NUM_PIOS : Z.
Variable PIO0_IRQ_0 : Z.
Variable pis_interrupt0 : Z.
Variable PICO_SHARED_IRQ_HANDLER_DEFAULT_ORDER_PRIORITY : Z.

Abbreviation world := (pio_irq.world H).
Abbreviation event := (pio_irq.event H).
Abbreviation handler_ptr := (pio_irq.handler_ptr H).
Abbreviation handlers_ := (pio_irq.handlers_ H).
Abbreviation irq := (pio_irq.irq H).
Abbreviation trace := (pio_irq.trace H).
Abbreviation well_sized := (pio_irq.well_sized H NUM_PIOS).
Abbreviation valid_pio := (pio_irq.valid_pio NUM_PIOS).
Abbreviation register_handler := (pio_irq.register_handler H).
Abbreviation interrupt_handler := (pio_irq.interrupt_handler H interrupt_number).
Abbreviation register_interrupt :=
  (pio_irq.register_interrupt H interrupt_number NUM_PIOS PIO0_IRQ_0
     pis_interrupt0 PICO_SHARED_IRQ_HANDLER_DEFAULT_ORDER_PRIORITY).
Abbreviation call_irq_handler := (pio_irq.call_irq_handler H interrupt_number).
Abbreviation invocations := (pio_irq.invocations H).
Abbreviation cleared := (pio_irq.cleared H).
Abbreviation with_irq := (pio_irq.with_irq H).
Abbreviation dispatch_case := (pio_irq.dispatch_case H interrupt_number).
Abbreviation nullptr := (pio_irq.nullptr H).
Abbreviation is_disable := (pio_irq.is_disable H).
Abbreviation is_table_access := (pio_irq.is_table_access H).

Lemma interrupt_handler_cases (w : world) (pio : PIO) : dispatch_case w pio.
Proof.
  destruct (Z.eq_dec (irq w pio) 0) as [Hz|Hnz].
  - apply pio_irq.dispatch_nothing; [assumption|].
    unfold pio_irq.interrupt_handler, pio_irq.bind, pio_irq.read_irq.
    cbv beta. now rewrite Hz.
  - destruct (sm_from_interrupt (irq w pio) interrupt_number) as [sm| |] eqn:Hsm.
    + pose proof (proj1 (sm_from_interrupt_normal _ _ _) Hsm) as [Hrange _].
      destruct (handlers_ w !! Z.to_nat (index_for pio sm)) as [p|] eqn:Hslot.
      * eapply pio_irq.dispatch_done; eauto using interrupt_handler_resolved.
      * eapply pio_irq.dispatch_out_of_range;
          eauto using interrupt_handler_out_of_range.
    + apply sm_from_interrupt_failed in Hsm.
      apply pio_irq.dispatch_no_state_machine;
        auto using interrupt_handler_unresolved.
    + now apply sm_from_interrupt_never_undefined in Hsm.
Qed.

(** X5. Whatever the flag word and the table, a run of the trampoline
    leaves [handlers_] as it was and only adds events to the trace, none
    of them a write to [handlers_]. *)
Theorem interrupt_handler_preserves_table (w : world) (pio : PIO) :
  handlers_ (snd (interrupt_handler pio w)) = handlers_ w /\
  exists t,
    trace (snd (interrupt_handler pio w)) = trace w ++ t /\
    Forall (fun e => forall idx p, e <> pio_irq.handlers_write H idx p) t.
Proof.
  destruct (interrupt_handler_cases w pio) as [_ ->|_ _ ->|sm p _ _ _ ->|sm _ _ _ ->];
    cbn [snd pio_irq.handlers_ pio_irq.trace];
    (split; [reflexivity|]).
  - exists []. split; [now rewrite app_nil_r|constructor].
  - exists []. split; [now rewrite app_nil_r|constructor].
  - eexists. split; [reflexivity|].
    unfold pio_irq.dispatch_events. destruct p; repeat constructor; discriminate.
  - eexists. split; [reflexivity|]. repeat constructor; discriminate.
Qed.

(** X6. For a table of [NUM_PIOS * 4] slots and a block of the chip the
    trampoline never reads outside [handlers_]; its only failure is the
    assertion, which fails exactly for a non-zero flag word with none of
    the bits 0..3 set. *)
Theorem interrupt_handler_outcome (w : world) (pio : PIO) :
  well_sized w -> valid_pio pio ->
  fst (interrupt_handler pio w) <> UndefinedBehaviour /\
  (fst (interrupt_handler pio w) = AssertionFailed <->
   irq w pio <> 0 /\ popcount4 (irq w pio) = 0).
Proof.
  intros Hw Hpio.
  destruct (interrupt_handler_cases w pio)
    as [Hz ->|Hnz Hnone ->|sm p Hsm Hres _ ->|sm Hsm _ Hslot _];
    cbn [fst].
  - split; [discriminate|]. split; [discriminate|]. intros [Hnz _]. contradiction.
  - split; [discriminate|]. split; auto.
  - split; [discriminate|]. split; [discriminate|]. intros [_ Hnone].
    apply (sm_from_interrupt_failed _ interrupt_number) in Hnone. congruence.
  - destruct (slot_in_range H NUM_PIOS w pio sm Hw Hpio Hsm) as [p Hp]. congruence.
Qed.


(** X8. For a logical interrupt number in 0..3 and the flag word with the
    single bit [b] set, the trampoline clears one flag,
    [(interrupt_number + b) mod 4]; that is the raised flag [b] exactly
    when the logical interrupt number is 0, and another flag when it is
    1, 2 or 3. *)
Theorem interrupt_handler_clears_raised_flag_iff (w : world) (pio : PIO) (b : Z) :
  0 <= interrupt_number < 4 -> 0 <= b < 4 -> irq w pio = 2 ^ b ->
  cleared (trace (snd (interrupt_handler pio w))) =
    cleared (trace w) ++ [(pio, (interrupt_number + b) mod 4)] /\
  (cleared (trace (snd (interrupt_handler pio w))) = cleared (trace w) ++ [(pio, b)]
   <-> interrupt_number = 0) /\
  (interrupt_number <> 0 -> (interrupt_number + b) mod 4 <> b).
Proof.
  intros Hn Hb Hword.
  assert (Hsm : sm_from_interrupt (irq w pio) interrupt_number = Normal b).
  { rewrite Hword. small_case b; reflexivity. }
  rewrite (interrupt_handler_clears_once H interrupt_number w pio b Hsm).
  rewrite relative_interrupt_small by assumption.
  assert (Hflag : (interrupt_number + b) mod 4 = b <-> interrupt_number = 0).
  { rewrite <- relative_interrupt_small by assumption.
    now apply relative_interrupt_moves. }
  split; [reflexivity|]. split.
  - split.
    + intros Heq. apply app_inv_head in Heq. injection Heq as Heq. tauto.
    + intros Hz. apply Hflag in Hz. now rewrite Hz.
  - tauto.
Qed.

(** X9. A run of the trampoline of a block depends only on the flag
    register of that block and on its four slots: two worlds that agree on
    them give the same outcome and the same new events. *)
Theorem interrupt_handler_block_local (w1 w2 : world) (pio : PIO) :
  irq w1 pio = irq w2 pio ->
  (forall sm, 0 <= sm < 4 ->
     handlers_ w1 !! Z.to_nat (index_for pio sm) =
     handlers_ w2 !! Z.to_nat (index_for pio sm)) ->
  fst (interrupt_handler pio w1) = fst (interrupt_handler pio w2) /\
  exists t,
    trace (snd (interrupt_handler pio w1)) = trace w1 ++ t /\
    trace (snd (interrupt_handler pio w2)) = trace w2 ++ t.
Proof.
  intros Hirq Hslots.
  destruct (interrupt_handler_cases w1 pio)
    as [Hz E1|Hnz Hnone E1|sm p Hsm Hres Hslot E1|sm Hsm Hres Hslot E1];
    rewrite E1; cbn [fst snd pio_irq.trace].
  - assert (E2 : interrupt_handler pio w2 = (Normal tt, w2)).
    { unfold pio_irq.interrupt_handler, pio_irq.bind, pio_irq.read_irq.
      cbv beta. now rewrite <- Hirq, Hz. }
    rewrite E2. split; [reflexivity|].
    exists []. now rewrite !app_nil_r.
  - rewrite Hirq in Hnz, Hnone.
    rewrite (interrupt_handler_unresolved H interrupt_number w2 pio Hnz Hnone).
    split; [reflexivity|]. exists []. now rewrite !app_nil_r.
  - rewrite Hirq in Hres. rewrite (Hslots sm Hsm) in Hslot.
    rewrite (interrupt_handler_resolved H interrupt_number w2 pio sm p Hres Hslot).
    split; [reflexivity|]. eexists. split; reflexivity.
  - rewrite Hirq in Hres. rewrite (Hslots sm Hsm) in Hslot.
    rewrite (interrupt_handler_out_of_range H interrupt_number w2 pio sm Hres Hslot).
    split; [reflexivity|]. eexists. split; reflexivity.
Qed.

Lemma index_for_pair_inj (pio pio' : PIO) (sm sm' : Z) :
  0 <= sm < 4 -> 0 <= sm' < 4 ->
  index_for pio' sm' = index_for pio sm -> pio' = pio /\ sm' = sm.
Proof.
  intros Hsm Hsm'. rewrite !index_for_small by assumption.
  destruct pio, pio'; simpl; intros Heq; split; (reflexivity || lia).
Qed.

(** A call of [register_handler] on the slot [(pio', sm')] followed by a
    dispatch of block [pio] for a word that resolves to [sm], where [p] is
    what the updated table holds for [(pio, sm)]. *)
Lemma register_then_dispatch (w : world) (pio' : PIO) (sm' : Z)
    (handler : handler_ptr) (set : bool) (pio : PIO) (sm v : Z)
    (old p : handler_ptr) :
  handlers_ w !! Z.to_nat (index_for pio' sm') = Some old ->
  <[Z.to_nat (index_for pio' sm') := if set then handler else nullptr]>
    (handlers_ w) !! Z.to_nat (index_for pio sm) = Some p ->
  0 <= sm < 4 -> lowest_set_bit_is v sm ->
  exists w1 w2,
    register_handler pio' sm' handler set w =
      (Normal (if set then pio_irq.is_nullptr H old else true), w1) /\
    interrupt_handler pio (with_irq w1 pio v) = (Normal tt, w2) /\
    invocations (trace w2) =
      invocations (trace w) ++ match p with Some h => [h] | None => [] end /\
    cleared (trace w2) =
      cleared (trace w) ++ [(pio, relative_interrupt interrupt_number sm)].
Proof.
  intros Hold Hp Hsm Hfire.
  pose proof (register_handler_run H w pio' sm' handler old set Hold) as Hrun1.
  set (w1 := snd (register_handler pio' sm' handler set w)).
  assert (Hslot : handlers_ (with_irq w1 pio v) !! Z.to_nat (index_for pio sm) = Some p).
  { subst w1. rewrite Hrun1. exact Hp. }
  assert (Hres : sm_from_interrupt (irq (with_irq w1 pio v) pio) interrupt_number
                 = Normal sm).
  { cbn [pio_irq.with_irq pio_irq.irq]. rewrite Z.eqb_refl.
    apply sm_from_interrupt_normal. now split. }
  pose proof (interrupt_handler_resolved H interrupt_number _ pio sm p Hres Hslot)
    as Hrun2.
  exists w1. eexists.
  split; [subst w1; now rewrite Hrun1|].
  split; [exact Hrun2|].
  cbn [pio_irq.trace pio_irq.with_irq].
  subst w1. rewrite Hrun1. cbn [snd pio_irq.trace].
  unfold pio_irq.dispatch_events.
  rewrite !invocations_app, !cleared_app.
  destruct p; cbn; rewrite ?app_nil_r; split; reflexivity.
Qed.

(** X10. Unbinding: [register_handler] with [set = false] returns [true]
    and leaves [nullptr] in the slot, whatever the slot held and whatever
    pointer is passed. *)
Theorem register_handler_unbind (w : world) (pio : PIO) (sm : Z) (handler : handler_ptr) :
  well_sized w -> valid_pio pio -> 0 <= sm < 4 ->
  exists w',
    register_handler pio sm handler false w = (Normal true, w') /\
    handlers_ w' = <[Z.to_nat (index_for pio sm) := nullptr]> (handlers_ w) /\
    handlers_ w' !! Z.to_nat (index_for pio sm) = Some nullptr.
Proof.
  intros Hw Hpio Hsm.
  destruct (slot_in_range H NUM_PIOS w pio sm Hw Hpio Hsm) as [old Hslot].
  eexists. split; [apply (register_handler_run H w pio sm handler old false Hslot)|].
  cbn [pio_irq.handlers_]. split; [reflexivity|].
  apply list_lookup_insert_eq. now apply lookup_lt_Some in Hslot.
Qed.

(** X11. [register_handler] changes one slot only: the size of the table,
    the flag registers and every other slot stay as they were, and it
    neither clears a flag nor invokes a handler. *)
Theorem register_handler_frame (w : world) (pio : PIO) (sm : Z)
    (handler : handler_ptr) (set : bool) :
  well_sized w -> valid_pio pio -> 0 <= sm < 4 ->
  exists r w',
    register_handler pio sm handler set w = (Normal r, w') /\
    well_sized w' /\ irq w' = irq w /\
    invocations (trace w') = invocations (trace w) /\
    cleared (trace w') = cleared (trace w) /\
    (forall pio' sm', 0 <= sm' < 4 -> (pio', sm') <> (pio, sm) ->
       handlers_ w' !! Z.to_nat (index_for pio' sm') =
       handlers_ w !! Z.to_nat (index_for pio' sm')).
Proof.
  intros Hw Hpio Hsm.
  destruct (slot_in_range H NUM_PIOS w pio sm Hw Hpio Hsm) as [old Hslot].
  eexists. eexists.
  split; [apply (register_handler_run H w pio sm handler old set Hslot)|].
  cbn [pio_irq.handlers_ pio_irq.irq pio_irq.trace].
  split; [unfold pio_irq.well_sized in *; cbn [pio_irq.handlers_];
          now rewrite length_insert|].
  split; [reflexivity|].
  split; [rewrite invocations_app; cbn; apply app_nil_r|].
  split; [rewrite cleared_app; cbn; apply app_nil_r|].
  intros pio' sm' Hsm' Hne. apply list_lookup_insert_ne.
  intros Heq. apply Hne.
  assert (Hidx : index_for pio' sm' = index_for pio sm).
  { unfold index_for, wrap32 in *.
    pose proof (Z.mod_pos_bound (PIO_NUM pio * 4 + sm) (2 ^ 32)).
    pose proof (Z.mod_pos_bound (PIO_NUM pio' * 4 + sm') (2 ^ 32)). lia. }
  destruct (index_for_pair_inj pio pio' sm sm' Hsm Hsm' Hidx) as [-> ->].
  reflexivity.
Qed.

(** X12. [register_handler] has no range check: a state machine number
    that takes the index to or past [NUM_PIOS * 4] is an access outside
    [handlers_], and the table is not updated. *)
Theorem register_handler_out_of_bounds (w : world) (pio : PIO) (sm : Z)
    (handler : handler_ptr) (set : bool) :
  well_sized w -> NUM_PIOS * 4 <= PIO_NUM pio * 4 + sm < 2 ^ 32 ->
  register_handler pio sm handler set w = (UndefinedBehaviour, w).
Proof.
  intros Hw Hidx. unfold pio_irq.well_sized in Hw.
  assert (Hnone : handlers_ w !! Z.to_nat (index_for pio sm) = None).
  { apply lookup_ge_None_2. unfold index_for, wrap32.
    rewrite Z.mod_small by lia. lia. }
  unfold pio_irq.register_handler, pio_irq.bind, pio_irq.handlers_get.
  cbv beta zeta. now rewrite Hnone.
Qed.

(** X13. A state machine number 4..7 passed with one block addresses the
    slot of the next block: a handler bound as [(pio, sm + 4)] is the one
    the trampoline of the next block invokes for state machine [sm]. *)
Theorem register_handler_reaches_next_block (w : world) (pio next : PIO)
    (sm v : Z) (h : H) :
  well_sized w -> valid_pio next -> PIO_NUM next = PIO_NUM pio + 1 ->
  0 <= sm < 4 -> lowest_set_bit_is v sm ->
  exists r w1 w2,
    register_handler pio (sm + 4) (Some h) true w = (Normal r, w1) /\
    interrupt_handler next (with_irq w1 next v) = (Normal tt, w2) /\
    invocations (trace w2) = invocations (trace w) ++ [h].
Proof.
  intros Hw Hnext Hnum Hsm Hfire.
  assert (Hidx : index_for pio (sm + 4) = index_for next sm).
  { unfold index_for. f_equal. lia. }
  destruct (slot_in_range H NUM_PIOS w next sm Hw Hnext Hsm) as [old Hslot].
  destruct (register_then_dispatch w pio (sm + 4) (Some h) true next sm v old (Some h))
    as (w1 & w2 & Hrun1 & Hrun2 & Hinv & _); try assumption.
  - now rewrite Hidx.
  - rewrite Hidx. apply list_lookup_insert_eq. now apply lookup_lt_Some in Hslot.
  - eexists. exists w1, w2. repeat split; eassumption.
Qed.

(** X14. Bind, then dispatch: after [register_handler pio sm h true], a
    run of the trampoline of [pio] for a flag word that resolves to [sm]
    clears the flag of [sm] and invokes [h], once, and nothing else. *)
Theorem bind_then_dispatch (w : world) (pio : PIO) (sm v : Z) (h : H) :
  well_sized w -> valid_pio pio -> 0 <= sm < 4 -> lowest_set_bit_is v sm ->
  exists r w1 w2,
    register_handler pio sm (Some h) true w = (Normal r, w1) /\
    interrupt_handler pio (with_irq w1 pio v) = (Normal tt, w2) /\
    invocations (trace w2) = invocations (trace w) ++ [h] /\
    cleared (trace w2) =
      cleared (trace w) ++ [(pio, relative_interrupt interrupt_number sm)].
Proof.
  intros Hw Hpio Hsm Hfire.
  destruct (slot_in_range H NUM_PIOS w pio sm Hw Hpio Hsm) as [old Hslot].
  destruct (register_then_dispatch w pio sm (Some h) true pio sm v old (Some h))
    as (w1 & w2 & Hrun1 & Hrun2 & Hinv & Hclr); try assumption.
  - apply list_lookup_insert_eq. now apply lookup_lt_Some in Hslot.
  - eexists. exists w1, w2. repeat split; eassumption.
Qed.

(** X15. Unbind, then dispatch: after [register_handler pio sm _ false], a
    run of the trampoline for a flag word that resolves to [sm] still
    clears the flag of [sm] and invokes nothing, whatever was bound. *)
Theorem unbind_then_dispatch (w : world) (pio : PIO) (sm v : Z) (handler : handler_ptr) :
  well_sized w -> valid_pio pio -> 0 <= sm < 4 -> lowest_set_bit_is v sm ->
  exists w1 w2,
    register_handler pio sm handler false w = (Normal true, w1) /\
    interrupt_handler pio (with_irq w1 pio v) = (Normal tt, w2) /\
    invocations (trace w2) = invocations (trace w) /\
    cleared (trace w2) =
      cleared (trace w) ++ [(pio, relative_interrupt interrupt_number sm)].
Proof.
  intros Hw Hpio Hsm Hfire.
  destruct (slot_in_range H NUM_PIOS w pio sm Hw Hpio Hsm) as [old Hslot].
  destruct (register_then_dispatch w pio sm handler false pio sm v old nullptr)
    as (w1 & w2 & Hrun1 & Hrun2 & Hinv & Hclr); try assumption.
  - apply list_lookup_insert_eq. now apply lookup_lt_Some in Hslot.
  - exists w1, w2. cbn in Hinv. rewrite app_nil_r in Hinv. auto.
Qed.

(** X16. Binding or unbinding another slot does not change what a dispatch
    for [(pio, sm)] invokes: it is still the handler [p] that the slot
    held before. *)
Theorem register_elsewhere_then_dispatch (w : world) (pio' : PIO) (sm' : Z)
    (handler : handler_ptr) (set : bool) (pio : PIO) (sm v : Z) (p : handler_ptr) :
  well_sized w -> valid_pio pio' -> 0 <= sm' < 4 -> 0 <= sm < 4 ->
  (pio', sm') <> (pio, sm) ->
  handlers_ w !! Z.to_nat (index_for pio sm) = Some p ->
  lowest_set_bit_is v sm ->
  exists r w1 w2,
    register_handler pio' sm' handler set w = (Normal r, w1) /\
    interrupt_handler pio (with_irq w1 pio v) = (Normal tt, w2) /\
    invocations (trace w2) =
      invocations (trace w) ++ match p with Some h => [h] | None => [] end.
Proof.
  intros Hw Hpio' Hsm' Hsm Hne Hp Hfire.
  destruct (slot_in_range H NUM_PIOS w pio' sm' Hw Hpio' Hsm') as [old Hslot].
  destruct (register_then_dispatch w pio' sm' handler set pio sm v old p)
    as (w1 & w2 & Hrun1 & Hrun2 & Hinv & _); try assumption.
  - rewrite list_lookup_insert_ne; [assumption|].
    intros Heq. apply Hne.
    assert (Hidx : index_for pio' sm' = index_for pio sm).
    { unfold index_for, wrap32 in *.
      pose proof (Z.mod_pos_bound (PIO_NUM pio * 4 + sm) (2 ^ 32)).
      pose proof (Z.mod_pos_bound (PIO_NUM pio' * 4 + sm') (2 ^ 32)). lia. }
    destruct (index_for_pair_inj pio pio' sm sm' Hsm Hsm' Hidx) as [-> ->].
    reflexivity.
  - eexists. exists w1, w2. repeat split; eassumption.
Qed.

(** X17. On the zero-initialised table every dispatch that resolves a
    state machine clears its flag and invokes nothing. *)
Theorem dispatch_on_initial_table (w : world) (pio : PIO) :
  handlers_ w = pio_irq.handlers_init H NUM_PIOS -> valid_pio pio ->
  popcount4 (irq w pio) <> 0 ->
  exists sm w',
    sm_from_interrupt (irq w pio) interrupt_number = Normal sm /\
    interrupt_handler pio w = (Normal tt, w') /\
    invocations (trace w') = invocations (trace w) /\
    cleared (trace w') =
      cleared (trace w) ++ [(pio, relative_interrupt interrupt_number sm)].
Proof.
  intros Hinit Hpio Hsome.
  assert (Hpos : 0 <= NUM_PIOS).
  { unfold pio_irq.valid_pio in Hpio. destruct pio; simpl in Hpio; lia. }
  assert (Hw : well_sized w).
  { unfold pio_irq.well_sized. rewrite Hinit. unfold pio_irq.handlers_init.
    rewrite length_replicate. lia. }
  destruct (popcount4_pos_lowest _ Hsome) as [sm [Hsm Hlow]].
  assert (Hres : sm_from_interrupt (irq w pio) interrupt_number = Normal sm).
  { apply sm_from_interrupt_normal. now split. }
  destruct (slot_in_range H NUM_PIOS w pio sm Hw Hpio Hsm) as [p Hslot].
  assert (p = nullptr) as ->.
  { rewrite Hinit in Hslot. unfold pio_irq.handlers_init in Hslot.
    apply lookup_replicate in Hslot. tauto. }
  exists sm. eexists.
  split; [exact Hres|].
  split; [apply (interrupt_handler_resolved H interrupt_number w pio sm _ Hres Hslot)|].
  cbn [pio_irq.trace]. unfold pio_irq.dispatch_events.
  rewrite invocations_app, cleared_app. cbn. rewrite app_nil_r. split; reflexivity.
Qed.

(** X18. Whatever its arguments, [register_interrupt] leaves [handlers_]
    and the flag registers alone, invokes no handler, and every call it
    makes into the SDK switches something on: also with [enable = false]
    nothing is disabled. *)
Theorem register_interrupt_only_enables (w : world) (irq_channel : Z) (pio : PIO)
    (sm : Z) (enable : bool) :
  handlers_ (snd (register_interrupt irq_channel pio sm enable w)) = handlers_ w /\
  irq (snd (register_interrupt irq_channel pio sm enable w)) = irq w /\
  exists t,
    trace (snd (register_interrupt irq_channel pio sm enable w)) = trace w ++ t /\
    Forall (fun e => is_disable e = false /\ is_table_access e = false) t /\
    invocations t = [].
Proof.
  unfold pio_irq.register_interrupt, pio_irq.bind, pio_irq.assert, pio_irq.lift,
    pio_irq._pio_set_irq0_source_enabled, pio_irq._pio_set_irq1_source_enabled,
    pio_irq.emit, pio_irq.ret.
  destruct (irq_channel <? 2); cbv beta iota zeta;
    [destruct (irq_channel =? 0), enable|];
    cbn [snd pio_irq.handlers_ pio_irq.irq pio_irq.trace];
    (split; [reflexivity|split; [reflexivity|]]);
    rewrite <- ?app_assoc;
    try (eexists; split; [reflexivity|]; split; [repeat constructor|reflexivity]).
  exists []. rewrite app_nil_r. repeat split. constructor.
Qed.

(** X19. What a call with line 0 or 1 does, for a block of the chip and a
    logical interrupt number in 0..3: on the chosen line it enables the
    source [pis_interrupt0 + (interrupt_number + sm) mod 4], it installs a
    pointer whose call is the trampoline of that block, on the vector
    [PIO0_IRQ_0 + 2 * PIO_NUM pio + line], and it enables that vector only
    if [enable] is set. *)
Theorem register_interrupt_wires (w : world) (irq_channel : Z) (pio : PIO)
    (sm : Z) (enable : bool) :
  valid_pio pio -> irq_channel = 0 \/ irq_channel = 1 ->
  0 <= interrupt_number < 4 -> 0 <= pis_interrupt0 <= 2 ^ 32 - 4 ->
  exists f,
    register_interrupt irq_channel pio sm enable w =
      (Normal tt,
       {| pio_irq.handlers_ := handlers_ w; pio_irq.irq := irq w;
          pio_irq.trace :=
            trace w ++
            [(if irq_channel =? 0
              then pio_irq.pio_set_irq0_source_enabled H
              else pio_irq.pio_set_irq1_source_enabled H)
               pio (pis_interrupt0 + (interrupt_number + sm) mod 4) true;
             pio_irq.irq_add_shared_handler H
               (wrap32 (PIO0_IRQ_0 + 2 * PIO_NUM pio + irq_channel)) f
               PICO_SHARED_IRQ_HANDLER_DEFAULT_ORDER_PRIORITY] ++
            (if enable
             then [pio_irq.irq_set_enabled H
                     (wrap32 (PIO0_IRQ_0 + 2 * PIO_NUM pio + irq_channel)) true]
             else []) |}) /\
    call_irq_handler f = interrupt_handler pio.
Proof.
  intros Hpio Hline Hn Hpis.
  assert (Hsrc : interrupt_source pis_interrupt0
                   (relative_interrupt interrupt_number sm)
                 = pis_interrupt0 + (interrupt_number + sm) mod 4).
  { rewrite relative_interrupt_small by assumption.
    unfold interrupt_source, wrap32.
    pose proof (Z.mod_pos_bound (interrupt_number + sm) 4).
    apply Z.mod_small. lia. }
  unfold pio_irq.register_interrupt. rewrite Hsrc.
  assert (Hthree : pio = pio2 -> (2 <? NUM_PIOS) = true).
  { intros ->. unfold pio_irq.valid_pio in Hpio. simpl in Hpio.
    apply Z.ltb_lt. assumption. }
  destruct pio; cbn [PIO_NUM]; rewrite ?Hthree by reflexivity;
    destruct Hline as [-> | ->]; destruct enable;
    (eexists; split;
     [cbv [pio_irq.bind pio_irq.assert pio_irq.lift pio_irq.emit pio_irq.ret
           pio_irq._pio_set_irq0_source_enabled pio_irq._pio_set_irq1_source_enabled
           pio_irq.handlers_ pio_irq.irq pio_irq.trace
           Z.ltb Z.eqb Z.compare Pos.compare Pos.compare_cont];
      rewrite <- ?app_assoc; reflexivity
     |reflexivity]).
Qed.

End pio_irq_further.

(** ** The further properties on the concrete build *)

Lemma interrupt_handler_outcome_witness :
  (pio_irq.well_sized nat rp2040.NUM_PIOS (rp2040.start 0x10) /\
   pio_irq.valid_pio rp2040.NUM_PIOS pio0) /\
  fst (pio_irq.interrupt_handler nat 0 pio0 (rp2040.start 0x10)) <> UndefinedBehaviour /\
  (fst (pio_irq.interrupt_handler nat 0 pio0 (rp2040.start 0x10)) = AssertionFailed <->
   pio_irq.irq nat (rp2040.start 0x10) pio0 <> 0 /\
   popcount4 (pio_irq.irq nat (rp2040.start 0x10) pio0) = 0).
Proof.
  split; [split; reflexivity|].
  apply (interrupt_handler_outcome nat 0 rp2040.NUM_PIOS (rp2040.start 0x10) pio0);
    reflexivity.
Defined.

Lemma interrupt_handler_clears_raised_flag_iff_witness :
  (0 <= 1 < 4 /\ 0 <= 2 < 4 /\ pio_irq.irq nat (rp2040.start 4) pio0 = 2 ^ 2) /\
  pio_irq.cleared nat
    (pio_irq.trace nat (snd (pio_irq.interrupt_handler nat 1 pio0 (rp2040.start 4)))) =
    pio_irq.cleared nat (pio_irq.trace nat (rp2040.start 4)) ++ [(pio0, (1 + 2) mod 4)] /\
  (pio_irq.cleared nat
     (pio_irq.trace nat (snd (pio_irq.interrupt_handler nat 1 pio0 (rp2040.start 4)))) =
   pio_irq.cleared nat (pio_irq.trace nat (rp2040.start 4)) ++ [(pio0, 2)]
   <-> 1 = 0) /\
  (1 <> 0 -> (1 + 2) mod 4 <> 2).
Proof.
  split; [repeat split; lia || reflexivity|].
  apply (interrupt_handler_clears_raised_flag_iff nat 1 (rp2040.start 4) pio0 2);
    [lia|lia|reflexivity].
Defined.

Lemma interrupt_handler_block_local_witness :
  (pio_irq.irq nat (rp2040.start 2) pio0 =
   pio_irq.irq nat (pio_irq.with_slot nat (rp2040.start 2) 5 (Some 9%nat)) pio0 /\
   (forall sm, 0 <= sm < 4 ->
      pio_irq.handlers_ nat (rp2040.start 2) !! Z.to_nat (index_for pio0 sm) =
      pio_irq.handlers_ nat (pio_irq.with_slot nat (rp2040.start 2) 5 (Some 9%nat))
        !! Z.to_nat (index_for pio0 sm))) /\
  fst (pio_irq.interrupt_handler nat 0 pio0 (rp2040.start 2)) =
  fst (pio_irq.interrupt_handler nat 0 pio0
         (pio_irq.with_slot nat (rp2040.start 2) 5 (Some 9%nat))) /\
  exists t,
    pio_irq.trace nat (snd (pio_irq.interrupt_handler nat 0 pio0 (rp2040.start 2))) =
      pio_irq.trace nat (rp2040.start 2) ++ t /\
    pio_irq.trace nat
      (snd (pio_irq.interrupt_handler nat 0 pio0
              (pio_irq.with_slot nat (rp2040.start 2) 5 (Some 9%nat)))) =
      pio_irq.trace nat (pio_irq.with_slot nat (rp2040.start 2) 5 (Some 9%nat)) ++ t.
Proof.
  assert (Hslots : forall sm, 0 <= sm < 4 ->
      pio_irq.handlers_ nat (rp2040.start 2) !! Z.to_nat (index_for pio0 sm) =
      pio_irq.handlers_ nat (pio_irq.with_slot nat (rp2040.start 2) 5 (Some 9%nat))
        !! Z.to_nat (index_for pio0 sm)).
  { intros sm Hsm. small_case sm; reflexivity. }
  split; [split; [reflexivity|exact Hslots]|].
  exact (interrupt_handler_block_local nat 0 (rp2040.start 2)
           (pio_irq.with_slot nat (rp2040.start 2) 5 (Some 9%nat)) pio0
           eq_refl Hslots).
Defined.

Lemma register_handler_unbind_witness :
  (pio_irq.well_sized nat rp2040.NUM_PIOS (rp2040.start 0) /\
   pio_irq.valid_pio rp2040.NUM_PIOS pio1 /\ 0 <= 3 < 4) /\
  exists w',
    pio_irq.register_handler nat pio1 3 (Some 5%nat) false (rp2040.start 0) =
      (Normal true, w') /\
    pio_irq.handlers_ nat w' =
      <[Z.to_nat (index_for pio1 3) := pio_irq.nullptr nat]>
        (pio_irq.handlers_ nat (rp2040.start 0)) /\
    pio_irq.handlers_ nat w' !! Z.to_nat (index_for pio1 3) = Some (pio_irq.nullptr nat).
Proof.
  split; [repeat split; lia || reflexivity|].
  apply (register_handler_unbind nat rp2040.NUM_PIOS (rp2040.start 0) pio1 3 (Some 5%nat));
    [reflexivity|reflexivity|lia].
Defined.

Lemma register_handler_frame_witness :
  (pio_irq.well_sized nat rp2040.NUM_PIOS (rp2040.start 0) /\
   pio_irq.valid_pio rp2040.NUM_PIOS pio0 /\ 0 <= 2 < 4) /\
  exists r w',
    pio_irq.register_handler nat pio0 2 (Some 5%nat) true (rp2040.start 0) = (Normal r, w') /\
    pio_irq.well_sized nat rp2040.NUM_PIOS w' /\
    pio_irq.irq nat w' = pio_irq.irq nat (rp2040.start 0) /\
    pio_irq.invocations nat (pio_irq.trace nat w') =
      pio_irq.invocations nat (pio_irq.trace nat (rp2040.start 0)) /\
    pio_irq.cleared nat (pio_irq.trace nat w') =
      pio_irq.cleared nat (pio_irq.trace nat (rp2040.start 0)) /\
    (forall pio' sm', 0 <= sm' < 4 -> (pio', sm') <> (pio0, 2) ->
       pio_irq.handlers_ nat w' !! Z.to_nat (index_for pio' sm') =
       pio_irq.handlers_ nat (rp2040.start 0) !! Z.to_nat (index_for pio' sm')).
Proof.
  split; [repeat split; lia || reflexivity|].
  apply (register_handler_frame nat rp2040.NUM_PIOS (rp2040.start 0) pio0 2
           (Some 5%nat) true); [reflexivity|reflexivity|lia].
Defined.

Lemma register_handler_out_of_bounds_witness :
  (pio_irq.well_sized nat rp2040.NUM_PIOS (rp2040.start 0) /\
   rp2040.NUM_PIOS * 4 <= PIO_NUM pio1 * 4 + 4 < 2 ^ 32) /\
  pio_irq.register_handler nat pio1 4 (Some 5%nat) true (rp2040.start 0) =
    (UndefinedBehaviour, rp2040.start 0).
Proof.
  assert (Hidx : rp2040.NUM_PIOS * 4 <= PIO_NUM pio1 * 4 + 4 < 2 ^ 32).
  { unfold rp2040.NUM_PIOS. simpl PIO_NUM. lia. }
  split; [split; [reflexivity|exact Hidx]|].
  exact (register_handler_out_of_bounds nat rp2040.NUM_PIOS (rp2040.start 0) pio1 4
           (Some 5%nat) true (start_well_sized 0) Hidx).
Defined.

Lemma lowest_set_bit_2 : lowest_set_bit_is 2 1.
Proof.
  split; [reflexivity|]. intros j Hj. assert (j = 0) as -> by lia. reflexivity.
Qed.

Lemma register_handler_reaches_next_block_witness :
  (pio_irq.well_sized nat rp2040.NUM_PIOS (rp2040.start 0) /\
   pio_irq.valid_pio rp2040.NUM_PIOS pio1 /\ PIO_NUM pio1 = PIO_NUM pio0 + 1 /\
   0 <= 1 < 4 /\ lowest_set_bit_is 2 1) /\
  exists r w1 w2,
    pio_irq.register_handler nat pio0 (1 + 4) (Some 9%nat) true (rp2040.start 0) =
      (Normal r, w1) /\
    pio_irq.interrupt_handler nat 0 pio1 (pio_irq.with_irq nat w1 pio1 2) =
      (Normal tt, w2) /\
    pio_irq.invocations nat (pio_irq.trace nat w2) =
      pio_irq.invocations nat (pio_irq.trace nat (rp2040.start 0)) ++ [9%nat].
Proof.
  split; [repeat split; try lia; try reflexivity; apply lowest_set_bit_2|].
  apply (register_handler_reaches_next_block nat 0 rp2040.NUM_PIOS (rp2040.start 0)
           pio0 pio1 1 2 9%nat);
    [reflexivity|reflexivity|reflexivity|lia|apply lowest_set_bit_2].
Defined.

Lemma bind_then_dispatch_witness :
  (pio_irq.well_sized nat rp2040.NUM_PIOS (rp2040.start 0) /\
   pio_irq.valid_pio rp2040.NUM_PIOS pio1 /\ 0 <= 1 < 4 /\ lowest_set_bit_is 2 1) /\
  exists r w1 w2,
    pio_irq.register_handler nat pio1 1 (Some 9%nat) true (rp2040.start 0) =
      (Normal r, w1) /\
    pio_irq.interrupt_handler nat 0 pio1 (pio_irq.with_irq nat w1 pio1 2) =
      (Normal tt, w2) /\
    pio_irq.invocations nat (pio_irq.trace nat w2) =
      pio_irq.invocations nat (pio_irq.trace nat (rp2040.start 0)) ++ [9%nat] /\
    pio_irq.cleared nat (pio_irq.trace nat w2) =
      pio_irq.cleared nat (pio_irq.trace nat (rp2040.start 0))
      ++ [(pio1, relative_interrupt 0 1)].
Proof.
  split; [repeat split; try lia; try reflexivity; apply lowest_set_bit_2|].
  apply (bind_then_dispatch nat 0 rp2040.NUM_PIOS (rp2040.start 0) pio1 1 2 9%nat);
    [reflexivity|reflexivity|lia|apply lowest_set_bit_2].
Defined.

Lemma unbind_then_dispatch_witness :
  (pio_irq.well_sized nat rp2040.NUM_PIOS
     (pio_irq.with_slot nat (rp2040.start 0) 5 (Some 9%nat)) /\
   pio_irq.valid_pio rp2040.NUM_PIOS pio1 /\ 0 <= 1 < 4 /\ lowest_set_bit_is 2 1) /\
  exists w1 w2,
    pio_irq.register_handler nat pio1 1 None false
      (pio_irq.with_slot nat (rp2040.start 0) 5 (Some 9%nat)) = (Normal true, w1) /\
    pio_irq.interrupt_handler nat 0 pio1 (pio_irq.with_irq nat w1 pio1 2) =
      (Normal tt, w2) /\
    pio_irq.invocations nat (pio_irq.trace nat w2) =
      pio_irq.invocations nat
        (pio_irq.trace nat (pio_irq.with_slot nat (rp2040.start 0) 5 (Some 9%nat))) /\
    pio_irq.cleared nat (pio_irq.trace nat w2) =
      pio_irq.cleared nat
        (pio_irq.trace nat (pio_irq.with_slot nat (rp2040.start 0) 5 (Some 9%nat)))
      ++ [(pio1, relative_interrupt 0 1)].
Proof.
  split; [repeat split; try lia; try reflexivity; apply lowest_set_bit_2|].
  apply (unbind_then_dispatch nat 0 rp2040.NUM_PIOS
           (pio_irq.with_slot nat (rp2040.start 0) 5 (Some 9%nat)) pio1 1 2 None);
    [reflexivity|reflexivity|lia|apply lowest_set_bit_2].
Defined.

Lemma register_elsewhere_then_dispatch_witness :
  (pio_irq.well_sized nat rp2040.NUM_PIOS
     (pio_irq.with_slot nat (rp2040.start 0) 1 (Some 9%nat)) /\
   pio_irq.valid_pio rp2040.NUM_PIOS pio1 /\ 0 <= 1 < 4 /\ 0 <= 1 < 4 /\
   (pio1, 1) <> (pio0, 1) /\
   pio_irq.handlers_ nat (pio_irq.with_slot nat (rp2040.start 0) 1 (Some 9%nat))
     !! Z.to_nat (index_for pio0 1) = Some (Some 9%nat) /\
   lowest_set_bit_is 2 1) /\
  exists r w1 w2,
    pio_irq.register_handler nat pio1 1 (Some 3%nat) true
      (pio_irq.with_slot nat (rp2040.start 0) 1 (Some 9%nat)) = (Normal r, w1) /\
    pio_irq.interrupt_handler nat 0 pio0 (pio_irq.with_irq nat w1 pio0 2) =
      (Normal tt, w2) /\
    pio_irq.invocations nat (pio_irq.trace nat w2) =
      pio_irq.invocations nat
        (pio_irq.trace nat (pio_irq.with_slot nat (rp2040.start 0) 1 (Some 9%nat)))
      ++ [9%nat].
Proof.
  assert (Hne : (pio1, 1) <> (pio0, 1)) by discriminate.
  split; [repeat split; try lia; try reflexivity;
          [exact Hne|apply lowest_set_bit_2]|].
  apply (register_elsewhere_then_dispatch nat 0 rp2040.NUM_PIOS
           (pio_irq.with_slot nat (rp2040.start 0) 1 (Some 9%nat))
           pio1 1 (Some 3%nat) true pio0 1 2 (Some 9%nat));
    [reflexivity|reflexivity|lia|lia|exact Hne|reflexivity|apply lowest_set_bit_2].
Defined.

Lemma dispatch_on_initial_table_witness :
  (pio_irq.handlers_ nat (rp2040.start 8) = pio_irq.handlers_init nat rp2040.NUM_PIOS /\
   pio_irq.valid_pio rp2040.NUM_PIOS pio0 /\
   popcount4 (pio_irq.irq nat (rp2040.start 8) pio0) <> 0) /\
  exists sm w',
    sm_from_interrupt (pio_irq.irq nat (rp2040.start 8) pio0) 0 = Normal sm /\
    pio_irq.interrupt_handler nat 0 pio0 (rp2040.start 8) = (Normal tt, w') /\
    pio_irq.invocations nat (pio_irq.trace nat w') =
      pio_irq.invocations nat (pio_irq.trace nat (rp2040.start 8)) /\
    pio_irq.cleared nat (pio_irq.trace nat w') =
      pio_irq.cleared nat (pio_irq.trace nat (rp2040.start 8))
      ++ [(pio0, relative_interrupt 0 sm)].
Proof.
  assert (Hsome : popcount4 (pio_irq.irq nat (rp2040.start 8) pio0) <> 0)
    by (vm_compute; discriminate).
  split; [split; [reflexivity|split; [reflexivity|exact Hsome]]|].
  exact (dispatch_on_initial_table nat 0 rp2040.NUM_PIOS (rp2040.start 8) pio0
           eq_refl rp2040_valid_pio0 Hsome).
Defined.

Lemma register_interrupt_wires_witness :
  (pio_irq.valid_pio rp2040.NUM_PIOS pio1 /\ (1 = 0 \/ 1 = 1) /\ 0 <= 1 < 4 /\
   0 <= rp2040.pis_interrupt0 <= 2 ^ 32 - 4) /\
  exists f,
    rp2040.register_interrupt 1 1 pio1 2 false (rp2040.start 0) =
      (Normal tt,
       {| pio_irq.handlers_ := pio_irq.handlers_ nat (rp2040.start 0);
          pio_irq.irq := pio_irq.irq nat (rp2040.start 0);
          pio_irq.trace :=
            pio_irq.trace nat (rp2040.start 0) ++
            [(if 1 =? 0
              then pio_irq.pio_set_irq0_source_enabled nat
              else pio_irq.pio_set_irq1_source_enabled nat)
               pio1 (rp2040.pis_interrupt0 + (1 + 2) mod 4) true;
             pio_irq.irq_add_shared_handler nat
               (wrap32 (rp2040.PIO0_IRQ_0 + 2 * PIO_NUM pio1 + 1)) f
               rp2040.PICO_SHARED_IRQ_HANDLER_DEFAULT_ORDER_PRIORITY] ++
            (if false
             then [pio_irq.irq_set_enabled nat
                     (wrap32 (rp2040.PIO0_IRQ_0 + 2 * PIO_NUM pio1 + 1)) true]
             else []) |}) /\
    pio_irq.call_irq_handler nat 1 f = pio_irq.interrupt_handler nat 1 pio1.
Proof.
  assert (Hpis : 0 <= rp2040.pis_interrupt0 <= 2 ^ 32 - 4)
    by (unfold rp2040.pis_interrupt0; lia).
  split; [split; [reflexivity|split; [now right|split; [lia|exact Hpis]]]|].
  apply (register_interrupt_wires nat 1 rp2040.NUM_PIOS rp2040.PIO0_IRQ_0
           rp2040.pis_interrupt0 rp2040.PICO_SHARED_IRQ_HANDLER_DEFAULT_ORDER_PRIORITY
           (rp2040.start 0) 1 pio1 2 false);
    [reflexivity|now right|lia|exact Hpis].
Defined.
